(** * KUKA arm control station: the controller of [kuka_control.js]

    A shallow embedding of class [KukaController] and of the page function
    [resetAllServos], with the properties of its angle store, command
    encoder, send gate and serial session.

    JavaScript strings are sequences of UTF-16 code units.  Numbers are the
    values [parseInt] can return: [NaN] or an integer ([-0] and [0] are one
    value: every use in the controller, comparison and printing, treats them
    alike).  Integers are exact, which agrees with JavaScript below 2^53. *)

From Stdlib Require Import ZArith NArith List Bool Lia String Ascii.
From Stdlib Require Import Decimal DecimalString DecimalPos.
From stdpp Require Import base list.

Local Open Scope N_scope.

(* ================================================================== *)
(** ** Strings *)

Definition jsstring := list N.

(** A literal: the code units of an ASCII text. *)
Definition js (s : string) : jsstring :=
  map N_of_ascii (list_ascii_of_string s).

Definition LF : N := 10.
Definition CR : N := 13.

(** ECMAScript [WhiteSpace] and [LineTerminator] code points, the set that
    [String.prototype.trim] and [parseInt] strip. *)
Definition is_white_space (c : N) : bool :=
  (c =? 9) || (c =? 10) || (c =? 11) || (c =? 12) || (c =? 13) || (c =? 32)
  || (c =? 160) || (c =? 5760) || ((8192 <=? c) && (c <=? 8202))
  || (c =? 8232) || (c =? 8233) || (c =? 8239) || (c =? 8287)
  || (c =? 12288) || (c =? 65279).

Fixpoint trimStart (s : jsstring) : jsstring :=
  match s with
  | c :: rest => if is_white_space c then trimStart rest else s
  | [] => []
  end.

Definition trimEnd (s : jsstring) : jsstring := rev (trimStart (rev s)).

Definition trim (s : jsstring) : jsstring := trimEnd (trimStart s).

(** [s.split(/\r?\n/)]: cut at every line feed, taking a carriage return
    that stands right before it into the separator. *)
Fixpoint split_lines (s : jsstring) : list jsstring :=
  match s with
  | [] => [[]]
  | c :: rest =>
      if c =? LF then [] :: split_lines rest
      else
        match rest with
        | d :: rest' =>
            if (c =? CR) && (d =? LF) then [] :: split_lines rest'
            else match split_lines rest with
                 | l :: ls => (c :: l) :: ls
                 | [] => [[c]]
                 end
        | [] => [[c]]
        end
  end.

(** [a.join(sep)] *)
Fixpoint join (sep : jsstring) (parts : list jsstring) : jsstring :=
  match parts with
  | [] => []
  | [p] => p
  | p :: ps => p ++ sep ++ join sep ps
  end.

(* ================================================================== *)
(** ** Numbers *)

Inductive value :=
| Undefined            (* a hole of an array, or a read past its end *)
| NaN
| Num (z : Z).

(** [Number.prototype.toString] on an integer. *)
Definition number_to_string (z : Z) : jsstring :=
  js (NilZero.string_of_int (Z.to_int z)).

(** [`${v}`] *)
Definition to_string (v : value) : jsstring :=
  match v with
  | Undefined => js "undefined"
  | NaN => js "NaN"
  | Num z => number_to_string z
  end.

Definition digit_value (radix c : N) : option N :=
  let d := if (48 <=? c) && (c <=? 57) then Some (c - 48)
           else if (97 <=? c) && (c <=? 122) then Some (c - 87)
           else if (65 <=? c) && (c <=? 90) then Some (c - 55)
           else None in
  match d with
  | Some d => if d <? radix then Some d else None
  | None => None
  end.

(** The longest prefix of digits, read in [radix]; [acc] is [None] until
    a digit has been seen. *)
Fixpoint parse_digits (radix : N) (acc : option N) (s : jsstring) : option N :=
  match s with
  | c :: rest =>
      match digit_value radix c with
      | Some d => parse_digits radix (Some (default 0 acc * radix + d)) rest
      | None => acc
      end
  | [] => acc
  end.

(** [parseInt(s)], no radix argument. *)
Definition parseInt (s : jsstring) : value :=
  let s1 := trimStart s in
  let '(sign, s2) := match s1 with
                     | 45 :: r => ((-1)%Z, r)
                     | 43 :: r => (1%Z, r)
                     | _ => (1%Z, s1)
                     end in
  let '(radix, s3) := match s2 with
                      | 48 :: x :: r =>
                          if (x =? 120) || (x =? 88) then (16, r) else (10, s2)
                      | _ => (10, s2)
                      end in
  match parse_digits radix None s3 with
  | None => NaN
  | Some n => Num (sign * Z.of_N n)
  end.

(* ================================================================== *)
(** ** The controller, the page it reads back, and the host

    [State] holds the fields of the [KukaController] object, the part of the
    page the controller reads back (the servo cards and the serial log), and
    the host's pending work: the writes in flight and the cool-down timers.
    What the controller only writes (button captions, the state display,
    dialogs, the console, calls on the serial port) is recorded in [trace],
    oldest first. *)

Definition Port := nat.
Definition Reader := nat.

(** One card of [createServoCard]: the range slider, the number input and
    the value label, with the bounds the markup declares on the slider. *)
Record Card := {
  label : jsstring;
  slider_min : Z;
  slider_max : Z;
  slider_value : jsstring;
  input_value : jsstring;
  value_text : jsstring
}.

(** What the controller does to the host.  [Write] carries the text that
    [TextEncoder] turns into bytes; a command is ASCII, one byte per code
    unit. *)
Inductive Effect :=
| Alert (msg : jsstring)
| ConsoleError (tag msg : jsstring)
| ConsoleLog (msg : jsstring)
  (* updateSystemState: status, positions, last command, connection *)
| UiState (uiStatus positions last status : jsstring)
  (* caption of the connect button, status dot, status text, send button *)
| UiConnection (on : bool)
| UiSendButton (disabled : bool)
| RequestPort
| OpenPort (p : Port) (baudRate : N)
| ClosePort (p : Port)
| StartRead (r : Reader)
| CancelReader (r : Reader)
| ReleaseReader (r : Reader)
| Write (p : Port) (data : jsstring)
| ReleaseWriter
| SetTimeout (delay : nat).

Record State := {
  numServos : nat;
  port : option Port;
  connected : bool;
  servoAngles : list value;
  lastCommand : jsstring;
  _sending : bool;            (* absent until the first send: falsy *)
  _reader : option Reader;
  cards : list Card;
  serialLog : option jsstring;  (* [None]: the page has no #serialLog *)
  now : nat;                    (* host clock, in ms *)
  writes : list jsstring;       (* commands whose write has not settled *)
  timers : list nat;            (* due times of the cool-down timers *)
  trace : list Effect
}.

Definition set_port (v : option Port) (s : State) : State :=
  {| numServos := numServos s; port := v; connected := connected s;
     servoAngles := servoAngles s; lastCommand := lastCommand s;
     _sending := _sending s; _reader := _reader s; cards := cards s;
     serialLog := serialLog s; now := now s; writes := writes s;
     timers := timers s; trace := trace s |}.

Definition set_connected (v : bool) (s : State) : State :=
  {| numServos := numServos s; port := port s; connected := v;
     servoAngles := servoAngles s; lastCommand := lastCommand s;
     _sending := _sending s; _reader := _reader s; cards := cards s;
     serialLog := serialLog s; now := now s; writes := writes s;
     timers := timers s; trace := trace s |}.

Definition set_servoAngles (v : list value) (s : State) : State :=
  {| numServos := numServos s; port := port s; connected := connected s;
     servoAngles := v; lastCommand := lastCommand s;
     _sending := _sending s; _reader := _reader s; cards := cards s;
     serialLog := serialLog s; now := now s; writes := writes s;
     timers := timers s; trace := trace s |}.

Definition set_lastCommand (v : jsstring) (s : State) : State :=
  {| numServos := numServos s; port := port s; connected := connected s;
     servoAngles := servoAngles s; lastCommand := v;
     _sending := _sending s; _reader := _reader s; cards := cards s;
     serialLog := serialLog s; now := now s; writes := writes s;
     timers := timers s; trace := trace s |}.

Definition set_sending (v : bool) (s : State) : State :=
  {| numServos := numServos s; port := port s; connected := connected s;
     servoAngles := servoAngles s; lastCommand := lastCommand s;
     _sending := v; _reader := _reader s; cards := cards s;
     serialLog := serialLog s; now := now s; writes := writes s;
     timers := timers s; trace := trace s |}.

Definition set_reader (v : option Reader) (s : State) : State :=
  {| numServos := numServos s; port := port s; connected := connected s;
     servoAngles := servoAngles s; lastCommand := lastCommand s;
     _sending := _sending s; _reader := v; cards := cards s;
     serialLog := serialLog s; now := now s; writes := writes s;
     timers := timers s; trace := trace s |}.

Definition set_cards (v : list Card) (s : State) : State :=
  {| numServos := numServos s; port := port s; connected := connected s;
     servoAngles := servoAngles s; lastCommand := lastCommand s;
     _sending := _sending s; _reader := _reader s; cards := v;
     serialLog := serialLog s; now := now s; writes := writes s;
     timers := timers s; trace := trace s |}.

Definition set_serialLog (v : option jsstring) (s : State) : State :=
  {| numServos := numServos s; port := port s; connected := connected s;
     servoAngles := servoAngles s; lastCommand := lastCommand s;
     _sending := _sending s; _reader := _reader s; cards := cards s;
     serialLog := v; now := now s; writes := writes s;
     timers := timers s; trace := trace s |}.

Definition set_now (v : nat) (s : State) : State :=
  {| numServos := numServos s; port := port s; connected := connected s;
     servoAngles := servoAngles s; lastCommand := lastCommand s;
     _sending := _sending s; _reader := _reader s; cards := cards s;
     serialLog := serialLog s; now := v; writes := writes s;
     timers := timers s; trace := trace s |}.

Definition set_writes (v : list jsstring) (s : State) : State :=
  {| numServos := numServos s; port := port s; connected := connected s;
     servoAngles := servoAngles s; lastCommand := lastCommand s;
     _sending := _sending s; _reader := _reader s; cards := cards s;
     serialLog := serialLog s; now := now s; writes := v;
     timers := timers s; trace := trace s |}.

Definition set_timers (v : list nat) (s : State) : State :=
  {| numServos := numServos s; port := port s; connected := connected s;
     servoAngles := servoAngles s; lastCommand := lastCommand s;
     _sending := _sending s; _reader := _reader s; cards := cards s;
     serialLog := serialLog s; now := now s; writes := writes s;
     timers := v; trace := trace s |}.

(** Record one more effect. *)
Definition emit (e : Effect) (s : State) : State :=
  {| numServos := numServos s; port := port s; connected := connected s;
     servoAngles := servoAngles s; lastCommand := lastCommand s;
     _sending := _sending s; _reader := _reader s; cards := cards s;
     serialLog := serialLog s; now := now s; writes := writes s;
     timers := timers s; trace := trace s ++ [e] |}.

(** How a synchronous call ends: it returns, or a [TypeError] escapes it
    (a property read on the [null] that [getElementById] gave). *)
Inductive Completion :=
| Normal (s : State)
| Throw (s : State).

Definition final (c : Completion) : State :=
  match c with Normal s | Throw s => s end.

(** How a promise settles, or a call that may raise ends. *)
Inductive Outcome (A : Type) :=
| Fulfilled (a : A)
| Failed (message : jsstring).
Arguments Fulfilled {A} a.
Arguments Failed {A} message.

(* ================================================================== *)
(** ** Arrays and the page *)

(** [a[i]] *)
Definition array_get (a : list value) (i : nat) : value :=
  default Undefined (a !! i).

(** [a[i] = v]: in place inside the array; past its end the array grows
    and the skipped positions are holes. *)
Definition array_set (a : list value) (i : nat) (v : value) : list value :=
  if (i <? length a)%nat then <[i:=v]> a
  else a ++ replicate (i - length a) Undefined ++ [v].

(** The element numbered [k], counting from one: [names[k - 1]], and
    [getElementById] on the ids [slider1], [slider2], ... *)
Definition nth1 {A} (l : list A) (k : nat) : option A :=
  match k with
  | O => None
  | S i => l !! i
  end.

Definition degree : N := 176.

Definition names : list jsstring :=
  [js "Base"; js "Joint 1"; js "Joint 2"; js "Joint 3"; js "Gripper"].

(** [createServoCard(servoNum)]: both inputs are declared with [min="0"],
    [max="180"] and [value="90"]. *)
Definition createServoCard (servoNum : nat) : Card :=
  {| label := default (js "Joint " ++ number_to_string (Z.of_nat servoNum))
                      (nth1 names servoNum);
     slider_min := 0; slider_max := 180;
     slider_value := js "90"; input_value := js "90";
     value_text := js "90" ++ [degree] |}.

Definition with_slider (v : jsstring) (c : Card) : Card :=
  {| label := label c; slider_min := slider_min c; slider_max := slider_max c;
     slider_value := v; input_value := input_value c;
     value_text := value_text c |}.

Definition with_input (v : jsstring) (c : Card) : Card :=
  {| label := label c; slider_min := slider_min c; slider_max := slider_max c;
     slider_value := slider_value c; input_value := v;
     value_text := value_text c |}.

Definition with_text (v : jsstring) (c : Card) : Card :=
  {| label := label c; slider_min := slider_min c; slider_max := slider_max c;
     slider_value := slider_value c; input_value := input_value c;
     value_text := v |}.

(** [renderServoCards] *)
Definition renderServoCards (s : State) : State :=
  set_cards (map createServoCard (seq 1 (numServos s))) s.

(** [servoAngles.map(angle => `${angle}°`).join(', ')]; a hole stays a hole
    under [map] and prints as nothing under [join]. *)
Definition positions (s : State) : jsstring :=
  join (js ", ")
       (map (fun angle => match angle with
                          | Undefined => []
                          | _ => to_string angle ++ [degree]
                          end) (servoAngles s)).

(** [updateSystemState]: the four texts go to the page's
    [updateSystemStateUI] when it has one, into the state block otherwise. *)
Definition updateSystemState (s : State) : State :=
  let status := if connected s then js "Online" else js "Offline" in
  let uiStatus := if connected s then js "Active" else js "Standby" in
  emit (UiState uiStatus (js "[" ++ positions s ++ js "]") (lastCommand s) status) s.

(** [checkWebSerialSupport] *)
Definition checkWebSerialSupport (hasSerial : bool) (s : State) : State :=
  if hasSerial then s
  else emit (Alert (js "Web Serial API not supported. Use Chrome/Edge with HTTPS.")) s.

(** [new KukaController(numServos)] on a page whose serial log element is
    [log] ([None] when the page has none), at host time 0. *)
Definition KukaController (hasSerial : bool) (log : option jsstring)
    (numServos : nat) : State :=
  let this :=
    {| numServos := numServos; port := None; connected := false;
       servoAngles := replicate numServos (Num 90);
       lastCommand := js "None";
       _sending := false; _reader := None; cards := [];
       serialLog := log; now := 0; writes := []; timers := [];
       trace := [] |} in
  updateSystemState (renderServoCards (checkWebSerialSupport hasSerial this)).

(* ================================================================== *)
(** ** Angle updates *)

(** [angle >= 0 && angle <= 180] *)
Definition in_range (angle : value) : bool :=
  match angle with
  | Num z => (0 <=? z)%Z && (z <=? 180)%Z
  | _ => false
  end.

(** [updateFromSlider(servoNum)]: the slider's value is stored as it
    parses, without a test. *)
Definition updateFromSlider (servoNum : nat) (s : State) : Completion :=
  match nth1 (cards s) servoNum with
  | None => Throw s
  | Some c =>
      let angle := parseInt (slider_value c) in
      let s := set_servoAngles (array_set (servoAngles s) (servoNum - 1) angle) s in
      let c := with_text (to_string angle ++ [degree])
                 (with_input (to_string angle) c) in
      Normal (updateSystemState (set_cards (<[(servoNum - 1)%nat := c]> (cards s)) s))
  end.

(** [updateFromInput(servoNum)]: nothing is touched unless the input's
    value parses into the range. *)
Definition updateFromInput (servoNum : nat) (s : State) : Completion :=
  match nth1 (cards s) servoNum with
  | None => Throw s
  | Some c =>
      let angle := parseInt (input_value c) in
      if in_range angle then
        let s := set_servoAngles (array_set (servoAngles s) (servoNum - 1) angle) s in
        let c := with_text (to_string angle ++ [degree])
                   (with_slider (to_string angle) c) in
        Normal (updateSystemState (set_cards (<[(servoNum - 1)%nat := c]> (cards s)) s))
      else Normal s
  end.

(* ================================================================== *)
(** ** Sending *)

(** The loop of [executePosition] that builds the command, before the line
    feed is appended. *)
Definition command_loop (s : State) : jsstring :=
  fold_left
    (fun command i =>
       let command := command ++ js "S" ++ number_to_string (Z.of_nat i + 1)
                        ++ js " " ++ to_string (array_get (servoAngles s) i) in
       if (Z.of_nat i <? Z.of_nat (numServos s) - 1)%Z
       then command ++ js "," else command)
    (seq 0 (numServos s)) [].

Definition build_command (s : State) : jsstring := command_loop s ++ [LF].

(** What one turn of that loop appends for joint [i], without and with the
    comma that follows every joint but the last of [n]. *)
Definition piece (a : list value) (i : nat) : jsstring :=
  js "S" ++ number_to_string (Z.of_nat i + 1) ++ js " " ++ to_string (array_get a i).

Definition piece_sep (n : nat) (a : list value) (i : nat) : jsstring :=
  piece a i ++ (if (Z.of_nat i <? Z.of_nat n - 1)%Z then js "," else []).

(** The [finally] of [executePosition]: [setTimeout(..., 300)]. *)
Definition cooldown (s : State) : State :=
  emit (SetTimeout 300) (set_timers (timers s ++ [(now s + 300)%nat]) s).

(** The [catch] of [executePosition], then its [finally]. *)
Definition executePosition_failed (message : jsstring) (s : State) : State :=
  cooldown
    (emit (Alert (js "Failed to execute command: " ++ message))
       (emit (ConsoleError (js "[ERROR] Command execution failed:") message) s)).

(** [executePosition()] up to its [await]; [w] says whether
    [this.port.writable.getWriter()] raised. *)
Definition executePosition (w : Outcome unit) (s : State) : State :=
  match connected s, port s with
  | true, Some p =>
      if _sending s then s
      else
        let s := emit (UiSendButton true) (set_sending true s) in
        let command := build_command s in
        match w with
        | Fulfilled _ =>
            emit (Write p command) (set_writes (writes s ++ [command]) s)
        | Failed message => executePosition_failed message s
        end
  | _, _ => s
  end.

(** [executePosition()] from the point where [writer.write] settles, for the
    oldest write in flight. *)
Definition executePosition_settled (o : Outcome unit) (s : State) : State :=
  match writes s with
  | [] => s
  | command :: rest =>
      let s := emit ReleaseWriter (set_writes rest s) in
      match o with
      | Fulfilled _ =>
          let s := set_lastCommand (trim command) s in
          let s := updateSystemState s in
          cooldown (emit (ConsoleLog (js "[COMMAND] " ++ trim command)) s)
      | Failed message => executePosition_failed message s
      end
  end.

(** The callback of the cool-down timer. *)
Definition cooldown_elapsed (s : State) : State :=
  let s := set_sending false s in
  if connected s then emit (UiSendButton false) s else s.

(** The host runs the oldest timer once it is due. *)
Definition timer_fired (s : State) : State :=
  match timers s with
  | due :: rest =>
      if (due <=? now s)%nat then cooldown_elapsed (set_timers rest s) else s
  | [] => s
  end.

(* ================================================================== *)
(** ** The serial session *)

(** [appendSerialLog(text)]; [stamp] is what
    [new Date().toLocaleTimeString()] gives at the call.  The scroll position
    it also sets is never read back. *)
Definition appendSerialLog (stamp text : jsstring) (s : State) : State :=
  match serialLog s with
  | None => s
  | Some pre =>
      set_serialLog
        (Some (pre ++ js "[" ++ stamp ++ js "] " ++ text ++ [LF])) s
  end.

(** [value.split(/\r?\n/).filter(l => l.trim().length)] *)
Definition chunk_lines (value : jsstring) : list jsstring :=
  filter (fun l => length (trim l) ≠ 0%nat) (split_lines value).

(** [for (const line of lines) this.appendSerialLog(line)]; [clock k] is the
    time string at the call numbered [k]. *)
Fixpoint forward_lines (clock : nat -> jsstring) (k : nat)
    (lines : list jsstring) (s : State) : State :=
  match lines with
  | [] => s
  | line :: rest =>
      forward_lines clock (S k) rest (appendSerialLog (clock k) line s)
  end.

(** What [startReading] meets when it sets the read side up. *)
Inductive ReadSetup :=
| NotReadable                       (* port.readable is null *)
| SetupFails (message : jsstring)   (* pipeTo or getReader raised *)
| ReaderReady (r : Reader).

(** [startReading()] up to its first [await]. *)
Definition startReading (setup : ReadSetup) (s : State) : State :=
  match port s with
  | None => s
  | Some _ =>
      match setup with
      | NotReadable => s
      | SetupFails message => emit (ConsoleError (js "Read loop error:") message) s
      | ReaderReady r => emit (StartRead r) (set_reader (Some r) s)
      end
  end.

(** What [reader.read()] settles with. *)
Inductive ReadResult :=
| Chunk (value : jsstring)
| Done
| ReadFails (message : jsstring).

(** One turn of the read loop, from the point where [reader.read()]
    settles. *)
Definition read_settled (o : ReadResult) (clock : nat -> jsstring)
    (s : State) : State :=
  match o with
  | Done => s
  | ReadFails message => emit (ConsoleError (js "Read loop error:") message) s
  | Chunk value =>
      match value with
      | [] => s
      | _ => forward_lines clock 0 (chunk_lines value) s
      end
  end.

(** The [catch] of [connect]. *)
Definition connect_failed (message : jsstring) (s : State) : State :=
  emit (Alert (js "Connection failed: " ++ message))
    (emit (ConsoleError (js "[ERROR] Connection failed:") message) s).

(** [connect()] up to [await navigator.serial.requestPort()]. *)
Definition connect_begin (s : State) : State := emit RequestPort s.

(** [connect()] from there up to [await this.port.open(...)]. *)
Definition connect_requested (o : Outcome Port) (s : State) : State :=
  match o with
  | Fulfilled p => emit (OpenPort p 9600) (set_port (Some p) s)
  | Failed message => connect_failed message s
  end.

(** [connect()] from the point where [open] settles. *)
Definition connect_opened (o : Outcome unit) (setup : ReadSetup)
    (s : State) : State :=
  match o with
  | Fulfilled _ =>
      let s := set_connected true s in
      let s := emit (UiConnection true) s in
      let s := set_lastCommand (js "Connected") s in
      let s := updateSystemState s in
      let s := emit (ConsoleLog (js "[SYSTEM] Serial connection established")) s in
      startReading setup s
  | Failed message => connect_failed message s
  end.

(** [connect()] run through without another handler in between. *)
Definition connect (requested : Outcome Port) (opened : Outcome unit)
    (setup : ReadSetup) (s : State) : State :=
  let s := connect_requested requested (connect_begin s) in
  match requested with
  | Fulfilled _ => connect_opened opened setup s
  | Failed _ => s
  end.

(** Which of the calls of [disconnect]'s teardown raise.  Every one of them
    sits in a [try] with an empty [catch]. *)
Record Teardown := {
  cancel_throws : bool;
  release_throws : bool;
  close_throws : bool
}.

(** [disconnect()].  [releaseLock] is not reached when [cancel] raised, being
    in the same [try]; the handler put on [readableStreamClosed] changes
    nothing here; [_reader] is left as it is. *)
Definition disconnect (t : Teardown) (s : State) : State :=
  let s :=
    match port s with
    | Some p =>
        let s :=
          match _reader s with
          | Some r =>
              let s := emit (CancelReader r) s in
              if cancel_throws t then s else emit (ReleaseReader r) s
          | None => s
          end in
        let s := emit (ClosePort p) s in
        set_port None s
    | None => s
    end in
  let s := set_connected false s in
  let s := emit (UiConnection false) s in
  let s := set_lastCommand (js "Disconnected") s in
  let s := updateSystemState s in
  emit (ConsoleLog (js "[SYSTEM] Serial connection terminated")) s.

(** [toggleConnection()] up to the first [await]. *)
Definition toggleConnection (t : Teardown) (s : State) : State :=
  if negb (connected s) then connect_begin s else disconnect t s.

(* ================================================================== *)
(** ** Reset *)

(** The loop of [resetAllServos] over the joint numbers [idxs]. *)
Fixpoint reset_loop (idxs : list nat) (s : State) : Completion :=
  match idxs with
  | [] => Normal s
  | i :: rest =>
      match nth1 (cards s) i with
      | None => Throw s
      | Some c =>
          let c := with_text (js "90" ++ [degree])
                     (with_input (js "90") (with_slider (js "90") c)) in
          let s := set_cards (<[(i - 1)%nat := c]> (cards s)) s in
          let s := set_servoAngles (array_set (servoAngles s) (i - 1) (Num 90)) s in
          reset_loop rest s
      end
  end.

(** [resetAllServos()], with [window.kukaController] set. *)
Definition resetAllServos (w : Outcome unit) (s : State) : Completion :=
  match reset_loop (seq 1 (numServos s)) s with
  | Throw s => Throw s
  | Normal s =>
      let s := updateSystemState s in
      let s := emit (ConsoleLog (js "[SYSTEM] All joints reset to home position")) s in
      Normal (if connected s then executePosition w s else s)
  end.

(* ================================================================== *)
(** ** The event loop

    One handler runs at a time.  The user moves a slider within the bounds
    its card declares, types into a number input, presses the buttons; the
    host settles what the controller awaits, runs due timers and lets time
    pass.  The settling of [requestPort], [open] and [read] is allowed at any
    time, which is more than the host does. *)
Inductive step : State -> State -> Prop :=
| step_slider servoNum v c s s' :
    nth1 (cards s) servoNum = Some c ->
    (slider_min c <= v <= slider_max c)%Z ->
    updateFromSlider servoNum
      (set_cards (<[(servoNum - 1)%nat := with_slider (number_to_string v) c]> (cards s)) s)
      = Normal s' ->
    step s s'
| step_input servoNum text c s s' :
    nth1 (cards s) servoNum = Some c ->
    updateFromInput servoNum
      (set_cards (<[(servoNum - 1)%nat := with_input text c]> (cards s)) s)
      = Normal s' ->
    step s s'
| step_send w s : step s (executePosition w s)
| step_write_settled o s : step s (executePosition_settled o s)
| step_timer s : step s (timer_fired s)
| step_time dt s : step s (set_now (now s + dt)%nat s)
| step_toggle t s : step s (toggleConnection t s)
| step_requested o s : step s (connect_requested o s)
| step_opened o setup s : step s (connect_opened o setup s)
| step_read o clock s : step s (read_settled o clock s)
| step_reset w s s' : resetAllServos w s = Normal s' -> step s s'.

Inductive reachable (hasSerial : bool) (log : option jsstring) (n : nat)
  : State -> Prop :=
| reach_init : reachable hasSerial log n (KukaController hasSerial log n)
| reach_step s s' :
    reachable hasSerial log n s -> step s s' -> reachable hasSerial log n s'.

(* ================================================================== *)
(** ** The specification's wording, for comparison *)

(** The wire line [S1 a1,S2 a2,...,SN aN] followed by a line feed. *)
Definition encode_spec (angles : list Z) : jsstring :=
  join (js ",")
       (imap (fun i a => js "S" ++ number_to_string (Z.of_nat i + 1)
                           ++ js " " ++ number_to_string a) angles)
  ++ [LF].

(** Split on a line feed or carriage return and line feed, and drop the
    empty lines. *)
Definition lines_spec (value : jsstring) : list jsstring :=
  filter (fun l => l ≠ []) (split_lines value).

(** Every entry of the angle vector is an integer in [0, 180]. *)
Definition valid_angle (v : value) : Prop :=
  exists z, v = Num z /\ (0 <= z <= 180)%Z.

Definition angles_valid (s : State) : Prop := Forall valid_angle (servoAngles s).

(** The number of effects of a kind in a trace. *)
Definition count_effects (p : Effect -> bool) (tr : list Effect) : nat :=
  length (List.filter p tr).

Definition is_alert (e : Effect) : bool :=
  match e with Alert _ => true | _ => false end.

Definition is_write (e : Effect) : bool :=
  match e with Write _ _ => true | _ => false end.

Definition is_start_read (e : Effect) : bool :=
  match e with StartRead _ => true | _ => false end.

(** The shape the constructor gives the controller and its page: valid
    angles, one angle and one card per joint, every slider declared with the
    bounds of [createServoCard]. *)
Definition well_formed (s : State) : Prop :=
  angles_valid s
  /\ length (servoAngles s) = numServos s
  /\ length (cards s) = numServos s
  /\ Forall (fun c => slider_min c = 0%Z /\ slider_max c = 180%Z) (cards s).

(** The joints: their number, their angles and their cards. *)
Definition same_arm (s s' : State) : Prop :=
  numServos s' = numServos s
  /\ servoAngles s' = servoAngles s
  /\ cards s' = cards s.

(** The busy flag covers every write in flight and every pending cool-down
    timer, and there is at most one of them. *)
Definition send_gate (s : State) : Prop :=
  (length (writes s) + length (timers s) <= 1)%nat
  /\ (_sending s = false -> writes s = [] /\ timers s = []).

(** The fields the send gate reads and writes. *)
Definition same_gate (s s' : State) : Prop :=
  _sending s' = _sending s /\ writes s' = writes s /\ timers s' = timers s.

(** A line of white space only; the empty line is one. *)
Definition blank (l : jsstring) : Prop :=
  Forall (fun c => is_white_space c = true) l.

(** What a handler that only talks to the host leaves alone: every field
    but [port] and [trace]. *)
Definition same_but_port (s s' : State) : Prop :=
  numServos s' = numServos s /\ connected s' = connected s
  /\ servoAngles s' = servoAngles s /\ lastCommand s' = lastCommand s
  /\ _sending s' = _sending s /\ _reader s' = _reader s
  /\ cards s' = cards s /\ serialLog s' = serialLog s /\ now s' = now s
  /\ writes s' = writes s /\ timers s' = timers s.

(** What the log gains for the line numbered [k]. *)
Definition log_entry (clock : nat -> jsstring) (k : nat) (line : jsstring) : jsstring :=
  js "[" ++ clock k ++ js "] " ++ line ++ [LF].

(** The calls of [writer.releaseLock()] in a trace. *)
Definition is_release_writer (e : Effect) : bool :=
  match e with ReleaseWriter => true | _ => false end.

(** What [disconnect] shows on the page and the console, after the
    teardown. *)
Definition disconnect_display (s : State) : list Effect :=
  [UiConnection false;
   UiState (js "Standby") (js "[" ++ positions s ++ js "]") (js "Disconnected")
           (js "Offline");
   ConsoleLog (js "[SYSTEM] Serial connection terminated")].

(** A text that begins and ends with a character that is not white
    space. *)
Definition starts_tight (x : jsstring) : Prop :=
  exists c r, x = c :: r /\ is_white_space c = false.

Definition ends_tight (x : jsstring) : Prop :=
  exists r d, x = r ++ [d] /\ is_white_space d = false.

(** What the send path leaves alone: every field but [lastCommand], the busy
    flag, the writes in flight, the timers and the trace. *)
Definition same_but_send (s s' : State) : Prop :=
  numServos s' = numServos s /\ port s' = port s /\ connected s' = connected s
  /\ servoAngles s' = servoAngles s /\ _reader s' = _reader s
  /\ cards s' = cards s /\ serialLog s' = serialLog s /\ now s' = now s.

(** What the loop of [resetAllServos] leaves alone: every field but the
    angles and the cards. *)
Definition same_but_arm (s s' : State) : Prop :=
  numServos s' = numServos s /\ port s' = port s /\ connected s' = connected s
  /\ lastCommand s' = lastCommand s /\ _sending s' = _sending s
  /\ _reader s' = _reader s /\ serialLog s' = serialLog s /\ now s' = now s
  /\ writes s' = writes s /\ timers s' = timers s /\ trace s' = trace s.

(* ================================================================== *)
(** ** Further notions *)

(** The cards agree with the angles: card [k] carries the label of its
    joint, and its slider and its value label show the stored angle. *)
Definition cards_show (angles : list value) (cs : list Card) : Prop :=
  forall k c, cs !! k = Some c ->
    label c = label (createServoCard (S k))
    /\ slider_value c = to_string (array_get angles k)
    /\ value_text c = to_string (array_get angles k) ++ [degree].

Definition arm_rendered (n : nat) (s : State) : Prop :=
  numServos s = n /\ cards_show (servoAngles s) (cards s).

(** The card as [resetAllServos] leaves it. *)
Definition home_card (c : Card) : Card :=
  with_text (js "90" ++ [degree]) (with_input (js "90") (with_slider (js "90") c)).

(** What [updateSystemState] shows for a state. *)
Definition display_of (s : State) : Effect :=
  UiState (if connected s then js "Active" else js "Standby")
          (js "[" ++ positions s ++ js "]") (lastCommand s)
          (if connected s then js "Online" else js "Offline").

(** The latest state display in a trace. *)
Fixpoint last_display (tr : list Effect) : option Effect :=
  match tr with
  | [] => None
  | e :: rest =>
      match last_display rest with
      | Some d => Some d
      | None => match e with UiState _ _ _ _ => Some e | _ => None end
      end
  end.

Definition displayed (s : State) : Prop :=
  last_display (trace s) = Some (display_of s).

(** Every pending timer is due within the cool-down delay. *)
Definition timers_bounded (s : State) : Prop :=
  Forall (fun due => (due <= now s + 300)%nat) (timers s).

(** What the read loop leaves alone: every field but the log and the
    trace. *)
Definition same_but_log (s s' : State) : Prop :=
  numServos s' = numServos s /\ port s' = port s /\ connected s' = connected s
  /\ servoAngles s' = servoAngles s /\ lastCommand s' = lastCommand s
  /\ _sending s' = _sending s /\ _reader s' = _reader s /\ cards s' = cards s
  /\ now s' = now s /\ writes s' = writes s /\ timers s' = timers s.

(** The log only grows. *)
Definition log_extends (s s' : State) : Prop :=
  match serialLog s with
  | None => serialLog s' = None
  | Some pre => exists more, serialLog s' = Some (pre ++ more)
  end.

(** A character that is no line break. *)
Definition plain (c : N) : Prop := c <> LF /\ c <> CR.

(** The line feeds of a text. *)
Definition count_lf (s : list N) : nat := length (filter (fun c => c = LF) s).

(** An integer that a JavaScript number holds exactly
    ([Number.isSafeInteger]). *)
Definition safe_integer (z : Z) : Prop := (Z.abs z <= 2 ^ 53 - 1)%Z.

(** A character of a printed integer: a digit or the minus sign. *)
Definition numeric (c : N) : Prop := c = 45 \/ (48 <= c <= 57).

(** ** The first version of the controller

    The file holds the controller twice.  In its first version [disconnect]
    has no [try] around [port.close()] and no reader to cancel,
    [executePosition] has no busy flag, no cool-down and no [finally], and
    [resetAllServos] sends nothing; these three are modelled here.  Its
    [connect] is the second version's without the read loop, and its other
    functions read as in the second version. *)
Module V1.

(** [disconnect()]; when [port.close()] raises, nothing after it runs. *)
Definition disconnect (close_throws : bool) (s : State) : Completion :=
  let after (s : State) :=
    let s := set_connected false s in
    let s := emit (UiConnection false) s in
    let s := set_lastCommand (js "Disconnected") s in
    let s := updateSystemState s in
    emit (ConsoleLog (js "[SYSTEM] Serial connection terminated")) s in
  match port s with
  | Some p =>
      let s := emit (ClosePort p) s in
      if close_throws then Throw s else Normal (after (set_port None s))
  | None => Normal (after s)
  end.

(** The [catch] of [executePosition]. *)
Definition executePosition_failed (message : jsstring) (s : State) : State :=
  emit (Alert (js "Failed to execute command: " ++ message))
    (emit (ConsoleError (js "[ERROR] Command execution failed:") message) s).

(** [executePosition()] up to its [await]. *)
Definition executePosition (w : Outcome unit) (s : State) : State :=
  match connected s, port s with
  | true, Some p =>
      let command := build_command s in
      match w with
      | Fulfilled _ =>
          emit (Write p command) (set_writes (writes s ++ [command]) s)
      | Failed message => executePosition_failed message s
      end
  | _, _ => s
  end.

(** [executePosition()] from the point where [writer.write] settles: the
    writer is released on the way on, not when the write failed. *)
Definition executePosition_settled (o : Outcome unit) (s : State) : State :=
  match writes s with
  | [] => s
  | command :: rest =>
      let s := set_writes rest s in
      match o with
      | Fulfilled _ =>
          let s := emit ReleaseWriter s in
          let s := set_lastCommand (trim command) s in
          let s := updateSystemState s in
          emit (ConsoleLog (js "[COMMAND] " ++ trim command)) s
      | Failed message => executePosition_failed message s
      end
  end.

(** [resetAllServos()], with [window.kukaController] set. *)
Definition resetAllServos (s : State) : Completion :=
  match reset_loop (seq 1 (numServos s)) s with
  | Throw s => Throw s
  | Normal s =>
      let s := updateSystemState s in
      Normal (emit (ConsoleLog (js "[SYSTEM] All joints reset to home position")) s)
  end.

End V1.

(** Every write that settled has had its writer released. *)
Definition writers_released (s : State) : Prop :=
  count_effects is_write (trace s)
  = (count_effects is_release_writer (trace s) + length (writes s))%nat.

(* ================================================================== *)
(** * Properties *)

(** ** The primitives on concrete inputs *)

Example parseInt_fraction : parseInt (js "45.7") = Num 45.
Proof. reflexivity. Qed.

Example parseInt_empty : parseInt (js "") = NaN.
Proof. reflexivity. Qed.

Example parseInt_signed : parseInt (js " -3x") = Num (-3).
Proof. reflexivity. Qed.

Example parseInt_hex : parseInt (js "0x1F") = Num 31.
Proof. reflexivity. Qed.

Example parseInt_hex_prefix_only : parseInt (js "0x") = NaN.
Proof. reflexivity. Qed.

Example to_string_negative : to_string (Num (-120)) = js "-120".
Proof. reflexivity. Qed.

Example split_lines_mixed :
  split_lines (js "ab" ++ [CR; LF] ++ js "c" ++ [LF]) = [js "ab"; js "c"; []].
Proof. reflexivity. Qed.

Example split_lines_lone_cr : split_lines (js "a" ++ [CR] ++ js "b") = [js "a" ++ [CR] ++ js "b"].
Proof. reflexivity. Qed.

(** ** Printing a number and reading it back *)

Lemma js_cons (a : ascii) (s : string) : js (String a s) = N_of_ascii a :: js s.
Proof. reflexivity. Qed.

Ltac eval_digit :=
  match goal with
  | |- context [digit_value ?r ?c] =>
      let v := eval vm_compute in (digit_value r c) in
      change (digit_value r c) with v
  end.

Lemma parse_digits_acc (d : Decimal.uint) (acc : positive) :
  parse_digits 10 (Some (Npos acc)) (js (NilEmpty.string_of_uint d))
  = Some (Npos (Pos.of_uint_acc d acc)).
Proof.
  revert acc. induction d; intros acc; cbn [NilEmpty.string_of_uint Pos.of_uint_acc];
    [reflexivity
    | rewrite js_cons; cbn [parse_digits]; eval_digit; cbv iota beta;
      rewrite <- IHd; f_equal; f_equal; unfold default, from_option, id; lia ..].
Qed.

Lemma parse_digits_zero (d : Decimal.uint) :
  parse_digits 10 (Some 0) (js (NilEmpty.string_of_uint d)) = Some (Pos.of_uint d).
Proof.
  induction d; cbn [NilEmpty.string_of_uint Pos.of_uint];
    [reflexivity
    | rewrite js_cons; cbn [parse_digits]; eval_digit; cbv iota beta;
      first [exact IHd | apply parse_digits_acc] ..].
Qed.

Lemma parse_digits_start (d : Decimal.uint) :
  d <> Nil ->
  parse_digits 10 None (js (NilEmpty.string_of_uint d)) = Some (Pos.of_uint d).
Proof.
  intros Hd. destruct d; [congruence | ..];
    cbn [NilEmpty.string_of_uint Pos.of_uint]; rewrite js_cons;
    cbn [parse_digits]; eval_digit; cbv iota beta;
    first [apply parse_digits_zero | apply parse_digits_acc].
Qed.

(** A text that starts with a decimal digit has no white space, sign or
    hexadecimal prefix for [parseInt] to take off. *)
Lemma parseInt_digits (d : Decimal.uint) :
  d <> Nil ->
  parseInt (js (NilEmpty.string_of_uint d)) = Num (Z.of_N (Pos.of_uint d))
  /\ parseInt (45 :: js (NilEmpty.string_of_uint d)) = Num (- Z.of_N (Pos.of_uint d)).
Proof.
  intros Hd. pose proof (parse_digits_start d Hd) as P.
  destruct d as [|d|d|d|d|d|d|d|d|d|d]; [congruence | destruct d | ..].
  all: cbn [NilEmpty.string_of_uint] in *; rewrite ?js_cons in *.
  all: try (split; reflexivity).
  all: repeat match goal with
         | H : context [N_of_ascii ?a] |- _ =>
             let v := eval vm_compute in (N_of_ascii a) in
             change (N_of_ascii a) with v in H
         | |- context [N_of_ascii ?a] =>
             let v := eval vm_compute in (N_of_ascii a) in
             change (N_of_ascii a) with v
         end.
  all: set (t := js _) in *; unfold parseInt; cbn in *; rewrite P.
  all: split; f_equal; lia.
Qed.

Lemma parseInt_number_to_string (z : Z) : parseInt (number_to_string z) = Num z.
Proof.
  unfold number_to_string. destruct z as [|p|p]; [reflexivity | ..];
    cbn [Z.to_int NilZero.string_of_int];
    pose proof (DecimalPos.Unsigned.to_uint_nonnil p) as Hp;
    destruct (parseInt_digits (Pos.to_uint p) Hp) as [H1 H2];
    rewrite DecimalPos.Unsigned.of_to in H1, H2.
  - unfold NilZero.string_of_uint. destruct (Pos.to_uint p); [congruence | exact H1 ..].
  - rewrite js_cons. unfold NilZero.string_of_uint.
    destruct (Pos.to_uint p); [congruence | exact H2 ..].
Qed.

(** ** The command loop *)

Lemma fold_pieces (n : nat) (a : list value) (l : list nat) (acc : jsstring) :
  fold_left
    (fun command i =>
       let command := command ++ js "S" ++ number_to_string (Z.of_nat i + 1)
                        ++ js " " ++ to_string (array_get a i) in
       if (Z.of_nat i <? Z.of_nat n - 1)%Z then command ++ js "," else command)
    l acc
  = acc ++ concat (map (piece_sep n a) l).
Proof.
  revert acc. induction l as [|i l IH]; intros acc; cbn [fold_left map concat].
  - now rewrite app_nil_r.
  - rewrite IH. unfold piece_sep, piece.
    destruct (Z.of_nat i <? Z.of_nat n - 1)%Z;
      rewrite ?app_nil_r, <- ?app_assoc; reflexivity.
Qed.

Lemma concat_pieces (n : nat) (a : list value) (m start : nat) :
  (start + m = n)%nat ->
  concat (map (piece_sep n a) (seq start m))
  = join (js ",") (map (piece a) (seq start m)).
Proof.
  revert start. induction m as [|m IH]; intros start Hn; [reflexivity|].
  cbn [seq map concat]. destruct m as [|m].
  - cbn [seq map concat join]. unfold piece_sep.
    destruct (Z.ltb_spec (Z.of_nat start) (Z.of_nat n - 1)); [lia|].
    now rewrite !app_nil_r.
  - rewrite IH by lia. unfold piece_sep at 1.
    destruct (Z.ltb_spec (Z.of_nat start) (Z.of_nat n - 1)); [|lia].
    cbn [seq map join]. now rewrite <- app_assoc.
Qed.

Lemma command_loop_join (s : State) :
  command_loop s
  = join (js ",") (map (piece (servoAngles s)) (seq 0 (numServos s))).
Proof.
  unfold command_loop. rewrite fold_pieces. rewrite app_nil_l.
  now apply concat_pieces.
Qed.

Lemma pieces_imap (angles : list Z) :
  map (piece (map Num angles)) (seq 0 (length angles))
  = imap (fun i a => js "S" ++ number_to_string (Z.of_nat i + 1)
                       ++ js " " ++ number_to_string a) angles.
Proof.
  apply list_eq; intros i.
  rewrite list_lookup_imap, list_lookup_fmap.
  destruct (decide (i < length angles)%nat) as [Hi|Hi].
  - rewrite lookup_seq_lt by exact Hi. simpl.
    destruct (lookup_lt_is_Some_2 angles i Hi) as [z Hz].
    rewrite Hz. simpl. unfold piece, array_get.
    now rewrite list_lookup_fmap, Hz.
  - rewrite lookup_seq_ge by lia.
    rewrite (lookup_ge_None_2 angles i) by lia. reflexivity.
Qed.

Lemma executePosition_open (w : Outcome unit) (s : State) (p : Port) :
  connected s = true -> port s = Some p -> _sending s = false ->
  executePosition w s
  = let s1 := emit (UiSendButton true) (set_sending true s) in
    match w with
    | Fulfilled _ =>
        emit (Write p (build_command s))
          (set_writes (writes s ++ [build_command s]) s1)
    | Failed message => executePosition_failed message s1
    end.
Proof.
  intros Hc Hp Hs. unfold executePosition. rewrite Hc, Hp, Hs.
  destruct w; reflexivity.
Qed.

Lemma build_command_encode_spec (s : State) (angles : list Z) :
  servoAngles s = map Num angles ->
  length angles = numServos s ->
  build_command s = encode_spec angles.
Proof.
  intros Ha Hn. unfold build_command, encode_spec. f_equal.
  rewrite command_loop_join, Ha, <- Hn. f_equal. apply pieces_imap.
Qed.

(** C1.  For a controller whose angle vector holds the N valid joint angles
    a1..aN, the command built by [executePosition] is exactly
    "S1 a1,S2 a2,...,SN aN" followed by one line feed: one-based joint
    numbers, a space before each angle, commas between the joints and none
    after the last.  The command is a function of the state, so it is
    deterministic and cannot fail.  It is the very text handed to the port
    when the send goes through, and for five joints at 90 it is
    "S1 90,S2 90,S3 90,S4 90,S5 90" and a line feed. *)
Theorem encoder_wire_format (s : State) (angles : list Z) :
  servoAngles s = map Num angles ->
  length angles = numServos s ->
  Forall (fun a => (0 <= a <= 180)%Z) angles ->
  build_command s = encode_spec angles
  /\ (forall p, connected s = true -> port s = Some p -> _sending s = false ->
        trace (executePosition (Fulfilled ()) s)
        = trace s ++ [UiSendButton true; Write p (encode_spec angles)])
  /\ (angles = [90; 90; 90; 90; 90]%Z ->
        build_command s = js "S1 90,S2 90,S3 90,S4 90,S5 90" ++ [LF]).
Proof.
  intros Ha Hn _.
  pose proof (build_command_encode_spec s angles Ha Hn) as E.
  split; [exact E|]. split.
  - intros p Hc Hp Hs. rewrite (executePosition_open _ _ p Hc Hp Hs).
    cbn [trace emit set_writes set_sending]. rewrite <- app_assoc.
    now rewrite <- E.
  - intros ->. rewrite E. reflexivity.
Qed.

Lemma encoder_wire_format_witness :
  build_command (KukaController true None 5)
  = js "S1 90,S2 90,S3 90,S4 90,S5 90" ++ [LF].
Proof.
  refine (proj2 (proj2 (encoder_wire_format (KukaController true None 5)
                          [90; 90; 90; 90; 90]%Z _ _ _)) _).
  - reflexivity.
  - reflexivity.
  - repeat constructor; lia.
  - reflexivity.
Defined.

(** C9.  Whatever the joint count n, the constructor leaves an angle vector
    of exactly n entries, each 90, no port, the controller not connected and
    the last command "None". *)
Theorem constructor_initial_state (hasSerial : bool) (log : option jsstring)
    (n : nat) :
  let s := KukaController hasSerial log n in
  numServos s = n
  /\ length (servoAngles s) = n
  /\ servoAngles s = replicate n (Num 90)
  /\ port s = None
  /\ connected s = false
  /\ lastCommand s = js "None".
Proof.
  cbv zeta. unfold KukaController, checkWebSerialSupport.
  destruct hasSerial; cbn [updateSystemState renderServoCards emit set_cards
    numServos servoAngles port connected lastCommand];
    (repeat split; try reflexivity; apply length_replicate).
Qed.

(** ** Array writes *)

Lemma array_get_set (a : list value) (i : nat) (v : value) :
  array_get (array_set a i v) i = v.
Proof.
  unfold array_get, array_set.
  destruct (Nat.ltb_spec i (length a)) as [Hi|Hi].
  - now rewrite list_lookup_insert_eq.
  - rewrite lookup_app_r by lia.
    rewrite lookup_app_r by (rewrite length_replicate; lia).
    rewrite length_replicate.
    now replace (i - length a - (i - length a))%nat with 0%nat by lia.
Qed.

Lemma array_set_in_place (a : list value) (i : nat) (v : value) :
  (i < length a)%nat -> array_set a i v = <[i:=v]> a.
Proof.
  intros Hi. unfold array_set.
  now destruct (Nat.ltb_spec i (length a)); [|lia].
Qed.

Lemma array_get_set_other (a : list value) (i j : nat) (v : value) :
  (i < length a)%nat -> i <> j -> array_get (array_set a i v) j = array_get a j.
Proof.
  intros Hi Hij. rewrite array_set_in_place by exact Hi.
  unfold array_get. now rewrite list_lookup_insert_ne.
Qed.

Lemma in_range_spec (v : value) :
  in_range v = true <-> exists z, v = Num z /\ (0 <= z <= 180)%Z.
Proof.
  split.
  - destruct v as [| |z]; simpl; try discriminate.
    intros H. apply andb_true_iff in H as [H1 H2].
    exists z. split; [reflexivity|lia].
  - intros (z & -> & Hz). simpl. apply andb_true_iff. split; lia.
Qed.

Lemma nth1_Some {A} (l : list A) (k : nat) (x : A) :
  nth1 l k = Some x -> (1 <= k)%nat /\ l !! (k - 1)%nat = Some x /\ (k <= length l)%nat.
Proof.
  destruct k as [|i]; simpl; [discriminate|].
  intros H. replace (i - 0)%nat with i by lia.
  split; [lia|]. split; [exact H|].
  apply lookup_lt_Some in H. lia.
Qed.

(** C2.  Let v be the number read from the numeric input of joint j; every
    integer is such a v, for the input that holds its decimal text.  The
    update goes through exactly when 0 <= v <= 180: then the stored angle at
    j becomes v, the other angles stay, and the slider, the label and the
    state display follow.  For every other v (below 0, above 180, or not a
    number) the update is refused: the call returns with the whole state,
    page and trace included, exactly as it was. *)
Theorem updateFromInput_accepts_iff_in_range (servoNum : nat) (s : State)
    (c : Card) :
  nth1 (cards s) servoNum = Some c ->
  let v := parseInt (input_value c) in
  (in_range v = true <-> exists z, v = Num z /\ (0 <= z <= 180)%Z)
  /\ (forall z, input_value c = number_to_string z -> v = Num z)
  /\ (in_range v = true ->
      exists s',
        updateFromInput servoNum s = Normal s'
        /\ array_get (servoAngles s') (servoNum - 1) = v
        /\ servoAngles s' = array_set (servoAngles s) (servoNum - 1) v
        /\ (forall i, (servoNum - 1 < length (servoAngles s))%nat ->
              i <> (servoNum - 1)%nat ->
              array_get (servoAngles s') i = array_get (servoAngles s) i)
        /\ (exists c', nth1 (cards s') servoNum = Some c'
                       /\ slider_value c' = to_string v
                       /\ value_text c' = to_string v ++ [degree])
        /\ (exists e, trace s' = trace s ++ [e]))
  /\ (in_range v = false -> updateFromInput servoNum s = Normal s).
Proof.
  intros Hc v. split; [apply in_range_spec|]. split.
  { intros z Hz. subst v. rewrite Hz. apply parseInt_number_to_string. }
  unfold updateFromInput. rewrite Hc. fold v. split.
  - intros Hv. rewrite Hv. eexists. split; [reflexivity|].
    cbn [updateSystemState emit set_cards set_servoAngles servoAngles cards trace].
    split; [apply array_get_set|]. split; [reflexivity|]. split.
    + intros i Hlt Hi. now apply array_get_set_other.
    + split; [|eexists; reflexivity].
      apply nth1_Some in Hc as (Hk & Hl & Hlen).
      exists (with_text (to_string v ++ [degree]) (with_slider (to_string v) c)).
      split; [|split; reflexivity].
      destruct servoNum as [|i]; [lia|]. simpl.
      replace (i - 0)%nat with i by lia.
      apply list_lookup_insert_eq. lia.
  - intros Hv. now rewrite Hv.
Qed.

Lemma updateFromInput_accepts_iff_in_range_witness :
  let s0 := KukaController true None 5 in
  let typed text :=
    set_cards (<[1%nat := with_input text (createServoCard 2)]> (cards s0)) s0 in
  (exists s', updateFromInput 2 (typed (js "45")) = Normal s'
              /\ array_get (servoAngles s') 1 = Num 45)
  /\ updateFromInput 2 (typed (js "200")) = Normal (typed (js "200"))
  /\ updateFromInput 2 (typed (js "-1")) = Normal (typed (js "-1"))
  /\ updateFromInput 2 (typed (js "")) = Normal (typed (js "")).
Proof.
  intros s0 typed. split; [|split; [|split]].
  - destruct (proj1 (proj2 (proj2 (updateFromInput_accepts_iff_in_range 2
        (typed (js "45")) (with_input (js "45") (createServoCard 2)) eq_refl)))
        eq_refl) as (s' & H1 & H2 & _).
    exists s'. split; [exact H1|exact H2].
  - exact (proj2 (proj2 (proj2 (updateFromInput_accepts_iff_in_range 2
        (typed (js "200")) (with_input (js "200") (createServoCard 2)) eq_refl)))
        eq_refl).
  - exact (proj2 (proj2 (proj2 (updateFromInput_accepts_iff_in_range 2
        (typed (js "-1")) (with_input (js "-1") (createServoCard 2)) eq_refl)))
        eq_refl).
  - exact (proj2 (proj2 (proj2 (updateFromInput_accepts_iff_in_range 2
        (typed (js "")) (with_input (js "") (createServoCard 2)) eq_refl)))
        eq_refl).
Defined.

(** ** What each handler leaves alone *)

Lemma same_arm_refl s : same_arm s s.
Proof. repeat split. Qed.

Lemma same_arm_trans s1 s2 s3 : same_arm s1 s2 -> same_arm s2 s3 -> same_arm s1 s3.
Proof. unfold same_arm. intros (?&?&?) (?&?&?). repeat split; congruence. Qed.

Lemma well_formed_same_arm s s' : same_arm s s' -> well_formed s -> well_formed s'.
Proof.
  unfold same_arm, well_formed, angles_valid. intros (Hn & Ha & Hc).
  now rewrite Hn, Ha, Hc.
Qed.

Lemma executePosition_failed_arm m s : same_arm s (executePosition_failed m s).
Proof. repeat split. Qed.

Lemma executePosition_arm w s : same_arm s (executePosition w s).
Proof.
  unfold executePosition.
  destruct (connected s), (port s), (_sending s), w; repeat split.
Qed.

Lemma executePosition_settled_arm o s : same_arm s (executePosition_settled o s).
Proof.
  unfold executePosition_settled. destruct (writes s), o; repeat split.
Qed.

Lemma timer_fired_arm s : same_arm s (timer_fired s).
Proof.
  unfold timer_fired, cooldown_elapsed.
  destruct (timers s) as [|due rest]; [repeat split|].
  destruct (due <=? now s)%nat; [|repeat split].
  cbn [connected set_sending set_timers]. destruct (connected s); repeat split.
Qed.

Lemma connect_requested_arm o s : same_arm s (connect_requested o s).
Proof. destruct o; repeat split. Qed.

Lemma startReading_arm setup s : same_arm s (startReading setup s).
Proof. unfold startReading. destruct (port s), setup; repeat split. Qed.

Lemma connect_opened_arm o setup s : same_arm s (connect_opened o setup s).
Proof.
  destruct o; [|repeat split]. unfold connect_opened.
  eapply same_arm_trans; [|apply startReading_arm]. repeat split.
Qed.

Lemma disconnect_arm t s : same_arm s (disconnect t s).
Proof.
  unfold disconnect.
  destruct (port s), (_reader s), (cancel_throws t); repeat split.
Qed.

Lemma toggleConnection_arm t s : same_arm s (toggleConnection t s).
Proof.
  unfold toggleConnection. destruct (connected s); [apply disconnect_arm|repeat split].
Qed.

Lemma appendSerialLog_arm stamp text s : same_arm s (appendSerialLog stamp text s).
Proof. unfold appendSerialLog. destruct (serialLog s); repeat split. Qed.

Lemma forward_lines_arm clock lines k s : same_arm s (forward_lines clock k lines s).
Proof.
  revert k s. induction lines as [|l lines IH]; intros k s; [apply same_arm_refl|].
  cbn [forward_lines]. eapply same_arm_trans; [apply appendSerialLog_arm|apply IH].
Qed.

Lemma read_settled_arm o clock s : same_arm s (read_settled o clock s).
Proof.
  destruct o as [[|c v]| |]; try (repeat split; fail).
  apply forward_lines_arm.
Qed.

(** ** Valid angles are kept *)

Lemma well_formed_init hasSerial log n : well_formed (KukaController hasSerial log n).
Proof.
  unfold well_formed, angles_valid, KukaController, checkWebSerialSupport.
  destruct hasSerial;
    cbn [updateSystemState renderServoCards emit set_cards servoAngles numServos cards].
  all: repeat split.
  all: try (apply Forall_replicate; exists 90%Z; split; [reflexivity|lia]).
  all: try apply length_replicate.
  all: try (rewrite length_map; apply length_seq).
  all: apply List.Forall_forall; intros c Hc; apply in_map_iff in Hc as (k & <- & _);
    split; reflexivity.
Qed.

Lemma well_formed_store (s : State) (i : nat) (z : Z) (c : Card) :
  well_formed s -> (i < numServos s)%nat -> (0 <= z <= 180)%Z ->
  slider_min c = 0%Z -> slider_max c = 180%Z ->
  well_formed
    (set_cards (<[i:=c]> (cards s))
       (set_servoAngles (array_set (servoAngles s) i (Num z)) s)).
Proof.
  intros (Ha & Hl & Hc & Hb) Hi Hz Hmin Hmax.
  unfold well_formed, angles_valid.
  cbn [set_cards set_servoAngles servoAngles numServos cards].
  rewrite array_set_in_place by lia. rewrite !length_insert.
  repeat split; try assumption.
  - apply Forall_insert; [exact Ha|]. now exists z.
  - apply Forall_insert; [exact Hb|]. now split.
Qed.

Lemma well_formed_emit e s : well_formed s -> well_formed (emit e s).
Proof. apply well_formed_same_arm. repeat split. Qed.

Lemma card_bounds (s : State) (k : nat) (c : Card) :
  well_formed s -> nth1 (cards s) k = Some c ->
  slider_min c = 0%Z /\ slider_max c = 180%Z /\ (k - 1 < numServos s)%nat.
Proof.
  intros (_ & _ & Hc & Hb) Hk. apply nth1_Some in Hk as (Hk1 & Hl & Hlen).
  rewrite Forall_lookup in Hb. destruct (Hb _ _ Hl) as [H1 H2].
  repeat split; try assumption. lia.
Qed.

Lemma updateFromInput_well_formed (servoNum : nat) (s s' : State) :
  well_formed s -> updateFromInput servoNum s = Normal s' -> well_formed s'.
Proof.
  intros Hwf. unfold updateFromInput.
  destruct (nth1 (cards s) servoNum) as [c|] eqn:Hc; [|discriminate].
  destruct (in_range (parseInt (input_value c))) eqn:Hr; [|now intros [= <-]].
  intros [= <-]. apply in_range_spec in Hr as (z & Hz & Hzr). rewrite Hz.
  destruct (card_bounds s servoNum c Hwf Hc) as (Hmin & Hmax & Hi).
  unfold updateSystemState. apply well_formed_emit.
  cbn [set_servoAngles cards]. now apply well_formed_store.
Qed.

Lemma updateFromSlider_well_formed (servoNum : nat) (s s' : State) (c : Card) :
  well_formed s -> nth1 (cards s) servoNum = Some c ->
  in_range (parseInt (slider_value c)) = true ->
  updateFromSlider servoNum s = Normal s' -> well_formed s'.
Proof.
  intros Hwf Hc Hr. unfold updateFromSlider. rewrite Hc.
  intros [= <-]. apply in_range_spec in Hr as (z & Hz & Hzr). rewrite Hz.
  destruct (card_bounds s servoNum c Hwf Hc) as (Hmin & Hmax & Hi).
  unfold updateSystemState. apply well_formed_emit.
  cbn [set_servoAngles cards]. now apply well_formed_store.
Qed.

Lemma reset_loop_well_formed (idxs : list nat) (s : State) :
  well_formed s -> well_formed (final (reset_loop idxs s)).
Proof.
  revert s. induction idxs as [|i idxs IH]; intros s Hwf; [exact Hwf|].
  cbn [reset_loop]. destruct (nth1 (cards s) i) as [c|] eqn:Hc; [|exact Hwf].
  apply IH. destruct (card_bounds s i c Hwf Hc) as (Hmin & Hmax & Hi).
  pose proof (well_formed_store s (i - 1)%nat 90
    (with_text (js "90" ++ [degree]) (with_input (js "90") (with_slider (js "90") c)))
    Hwf Hi ltac:(lia) Hmin Hmax) as H.
  destruct H as (H1 & H2 & H3 & H4). repeat split; assumption.
Qed.

Lemma resetAllServos_well_formed (w : Outcome unit) (s : State) :
  well_formed s -> well_formed (final (resetAllServos w s)).
Proof.
  intros Hwf. unfold resetAllServos.
  pose proof (reset_loop_well_formed (seq 1 (numServos s)) s Hwf) as H.
  destruct (reset_loop (seq 1 (numServos s)) s) as [s1|s1]; cbn [final] in *; [|exact H].
  set (s2 := emit _ (updateSystemState s1)).
  assert (H2 : well_formed s2) by (apply well_formed_emit, well_formed_emit, H).
  destruct (connected s2); [|exact H2].
  eapply well_formed_same_arm; [apply executePosition_arm|exact H2].
Qed.

Lemma step_well_formed (s s' : State) : well_formed s -> step s s' -> well_formed s'.
Proof.
  intros Hwf Hstep. destruct Hstep as
    [servoNum v c s s' Hc Hv Hu | servoNum text c s s' Hc Hu | w s | o s | s
    | dt s | t s | o s | o setup s | o clock s | w s s' Hr].
  - destruct (card_bounds s servoNum c Hwf Hc) as (Hmin & Hmax & Hi).
    apply nth1_Some in Hc as (Hk & Hl & Hlen).
    eapply (updateFromSlider_well_formed servoNum _ s'
              (with_slider (number_to_string v) c)); [| | |exact Hu].
    + destruct Hwf as (H1 & H2 & H3 & H4). unfold well_formed, angles_valid.
      cbn [set_cards servoAngles numServos cards]. rewrite length_insert.
      repeat split; try assumption. apply Forall_insert; [exact H4|now split].
    + destruct servoNum as [|i]; [lia|]. cbn [nth1 set_cards cards].
      replace (S i - 1)%nat with i by lia. apply list_lookup_insert_eq. lia.
    + cbn [with_slider slider_value]. rewrite parseInt_number_to_string.
      apply in_range_spec. exists v. split; [reflexivity|lia].
  - destruct (card_bounds s servoNum c Hwf Hc) as (Hmin & Hmax & Hi).
    eapply (updateFromInput_well_formed servoNum _ s'); [|exact Hu].
    destruct Hwf as (H1 & H2 & H3 & H4). unfold well_formed, angles_valid.
    cbn [set_cards servoAngles numServos cards]. rewrite length_insert.
    repeat split; try assumption. apply Forall_insert; [exact H4|now split].
  - eapply well_formed_same_arm; [apply executePosition_arm|exact Hwf].
  - eapply well_formed_same_arm; [apply executePosition_settled_arm|exact Hwf].
  - eapply well_formed_same_arm; [apply timer_fired_arm|exact Hwf].
  - exact Hwf.
  - eapply well_formed_same_arm; [apply toggleConnection_arm|exact Hwf].
  - eapply well_formed_same_arm; [apply connect_requested_arm|exact Hwf].
  - eapply well_formed_same_arm; [apply connect_opened_arm|exact Hwf].
  - eapply well_formed_same_arm; [apply read_settled_arm|exact Hwf].
  - pose proof (resetAllServos_well_formed w s Hwf) as H. now rewrite Hr in H.
Qed.

Lemma reachable_well_formed hasSerial log n s :
  reachable hasSerial log n s -> well_formed s.
Proof.
  induction 1 as [|s s' _ IH Hstep]; [apply well_formed_init|].
  exact (step_well_formed s s' IH Hstep).
Qed.

(** ** The page follows the angles *)

Lemma cards_show_insert (angles : list value) (cs : list Card) (i : nat)
    (c : Card) (v : value) :
  cards_show angles cs -> (i < length angles)%nat ->
  label c = label (createServoCard (S i)) ->
  slider_value c = to_string v ->
  value_text c = to_string v ++ [degree] ->
  cards_show (array_set angles i v) (<[i:=c]> cs).
Proof.
  intros H Hi Hl Hs Ht k c' Hk.
  destruct (decide (i = k)) as [->|Hne].
  - rewrite array_get_set.
    apply list_lookup_insert_Some in Hk as [(_ & <- & _)|(Hne & _)]; [|congruence].
    now repeat split.
  - rewrite list_lookup_insert_ne in Hk by exact Hne.
    rewrite array_get_set_other by assumption. now apply H.
Qed.

Lemma cards_show_retouch (angles : list value) (cs : list Card) (i : nat)
    (c c' : Card) :
  cards_show angles cs -> cs !! i = Some c ->
  label c' = label c -> slider_value c' = slider_value c ->
  value_text c' = value_text c ->
  cards_show angles (<[i:=c']> cs).
Proof.
  intros H Hc Hl Hs Ht k d Hk.
  destruct (decide (i = k)) as [->|Hne].
  - apply list_lookup_insert_Some in Hk as [(_ & <- & _)|(Hne & _)]; [|congruence].
    rewrite Hl, Hs, Ht. now apply H.
  - rewrite list_lookup_insert_ne in Hk by exact Hne. now apply H.
Qed.

Lemma arm_rendered_same_arm n s s' :
  same_arm s s' -> arm_rendered n s -> arm_rendered n s'.
Proof.
  unfold same_arm, arm_rendered. intros (Hn & Ha & Hc). now rewrite Hn, Ha, Hc.
Qed.

Lemma arm_rendered_init hasSerial log n :
  arm_rendered n (KukaController hasSerial log n).
Proof.
  assert (H : cards_show (replicate n (Num 90)) (map createServoCard (seq 1 n))).
  { intros k c Hk.
    change (map createServoCard (seq 1 n)) with (createServoCard <$> seq 1 n) in Hk.
    rewrite list_lookup_fmap in Hk.
    destruct (seq 1 n !! k) as [j|] eqn:Hj; [|discriminate].
    apply lookup_seq in Hj as [-> Hlt]. injection Hk as <-.
    unfold array_get. rewrite lookup_replicate_2 by lia.
    split; [reflexivity|]. split; reflexivity. }
  unfold arm_rendered, KukaController, checkWebSerialSupport.
  destruct hasSerial; split; try reflexivity; exact H.
Qed.

Lemma updateFromInput_rendered n servoNum s s' :
  well_formed s -> arm_rendered n s ->
  updateFromInput servoNum s = Normal s' -> arm_rendered n s'.
Proof.
  intros Hwf [Hn Hs]. unfold updateFromInput.
  destruct (nth1 (cards s) servoNum) as [c|] eqn:Hc; [|discriminate].
  destruct (in_range (parseInt (input_value c))) eqn:Hr; [|now intros [= <-]].
  intros [= <-]. apply in_range_spec in Hr as (z & Hz & Hzr). rewrite Hz.
  destruct (card_bounds s servoNum c Hwf Hc) as (_ & _ & Hi).
  apply nth1_Some in Hc as (Hk & Hl & _).
  split; [exact Hn|].
  cbn [updateSystemState emit set_cards set_servoAngles servoAngles cards].
  apply cards_show_insert; try assumption.
  - destruct Hwf as (_ & Hlen & _). lia.
  - exact (proj1 (Hs _ _ Hl)).
  - reflexivity.
  - reflexivity.
Qed.

Lemma updateFromSlider_rendered n servoNum s s' c0 v :
  well_formed s -> arm_rendered n s ->
  nth1 (cards s) servoNum = Some c0 ->
  updateFromSlider servoNum
    (set_cards (<[(servoNum - 1)%nat := with_slider (number_to_string v) c0]>
                  (cards s)) s) = Normal s' ->
  arm_rendered n s'.
Proof.
  intros Hwf [Hn Hs] Hc0.
  destruct (card_bounds s servoNum c0 Hwf Hc0) as (_ & _ & Hi).
  apply nth1_Some in Hc0 as (Hk & Hl & Hlen).
  unfold updateFromSlider. destruct servoNum as [|i]; [lia|].
  replace (S i - 1)%nat with i in * by lia.
  cbn [nth1 set_cards cards]. rewrite list_lookup_insert_eq by lia.
  intros [= <-]. split; [exact Hn|].
  cbn [updateSystemState emit set_cards set_servoAngles servoAngles cards
       with_slider slider_value].
  rewrite list_insert_insert_eq, parseInt_number_to_string.
  apply cards_show_insert; try assumption.
  - destruct Hwf as (_ & Hlen' & _). lia.
  - exact (proj1 (Hs _ _ Hl)).
  - reflexivity.
  - reflexivity.
Qed.

Lemma reset_loop_rendered n idxs s :
  well_formed s -> arm_rendered n s ->
  arm_rendered n (final (reset_loop idxs s)).
Proof.
  revert s. induction idxs as [|i idxs IH]; intros s Hwf Hr; [exact Hr|].
  cbn [reset_loop]. destruct (nth1 (cards s) i) as [c|] eqn:Hc; [|exact Hr].
  destruct (card_bounds s i c Hwf Hc) as (Hmin & Hmax & Hi).
  pose proof Hc as Hc'. apply nth1_Some in Hc' as (Hk & Hl & Hlen).
  apply IH.
  - pose proof (well_formed_store s (i - 1)%nat 90 (home_card c) Hwf Hi
                  ltac:(lia) Hmin Hmax) as H.
    destruct H as (H1 & H2 & H3 & H4). repeat split; assumption.
  - destruct Hr as [Hn Hs]. split; [exact Hn|].
    cbn [set_cards set_servoAngles servoAngles cards].
    apply cards_show_insert; try assumption.
    + destruct Hwf as (_ & Hlen' & _). lia.
    + exact (proj1 (Hs _ _ Hl)).
    + reflexivity.
    + reflexivity.
Qed.

Lemma step_rendered n s s' :
  well_formed s -> arm_rendered n s -> step s s' -> arm_rendered n s'.
Proof.
  intros Hwf Hr Hstep. destruct Hstep as
    [servoNum v c s s' Hc Hv Hu | servoNum text c s s' Hc Hu | w s | o s | s
    | dt s | t s | o s | o setup s | o clock s | w s s' Hreset].
  - exact (updateFromSlider_rendered n servoNum s s' c _ Hwf Hr Hc Hu).
  - destruct (card_bounds s servoNum c Hwf Hc) as (Hmin & Hmax & Hi).
    pose proof Hc as Hc'. apply nth1_Some in Hc' as (Hk & Hl & Hlen).
    eapply (updateFromInput_rendered n servoNum _ s'); [| |exact Hu].
    + destruct Hwf as (H1 & H2 & H3 & H4). unfold well_formed, angles_valid.
      cbn [set_cards servoAngles numServos cards]. rewrite length_insert.
      repeat split; try assumption. apply Forall_insert; [exact H4|now split].
    + destruct Hr as [Hn Hs]. split; [exact Hn|].
      cbn [set_cards servoAngles cards].
      now apply (cards_show_retouch _ _ _ c).
  - eapply arm_rendered_same_arm; [apply executePosition_arm|exact Hr].
  - eapply arm_rendered_same_arm; [apply executePosition_settled_arm|exact Hr].
  - eapply arm_rendered_same_arm; [apply timer_fired_arm|exact Hr].
  - exact Hr.
  - eapply arm_rendered_same_arm; [apply toggleConnection_arm|exact Hr].
  - eapply arm_rendered_same_arm; [apply connect_requested_arm|exact Hr].
  - eapply arm_rendered_same_arm; [apply connect_opened_arm|exact Hr].
  - eapply arm_rendered_same_arm; [apply read_settled_arm|exact Hr].
  - unfold resetAllServos in Hreset.
    pose proof (reset_loop_rendered n (seq 1 (numServos s)) s Hwf Hr) as H.
    destruct (reset_loop (seq 1 (numServos s)) s) as [s1|s1]; [|discriminate].
    cbn [final] in H. injection Hreset as <-.
    set (s2 := emit _ (updateSystemState s1)).
    assert (H2 : arm_rendered n s2) by exact H.
    change (connected s2) with (connected s1).
    destruct (connected s1); [|exact H2].
    eapply arm_rendered_same_arm; [apply executePosition_arm|exact H2].
Qed.

Lemma reachable_rendered hasSerial log n s :
  reachable hasSerial log n s -> arm_rendered n s.
Proof.
  induction 1 as [|s s' Hr IH Hstep]; [apply arm_rendered_init|].
  exact (step_rendered n s s' (reachable_well_formed _ _ _ _ Hr) IH Hstep).
Qed.

(** ** The angles stay in range *)

(** What the slider of a card holds parses to an angle in range. *)
Lemma slider_shows_valid_angle n s servoNum c :
  well_formed s -> arm_rendered n s -> nth1 (cards s) servoNum = Some c ->
  in_range (parseInt (slider_value c)) = true.
Proof.
  intros Hwf (_ & Hs) Hc.
  apply nth1_Some in Hc as (Hk & Hl & Hlen).
  destruct (Hs _ _ Hl) as (_ & H2 & _).
  destruct Hwf as (Hv & Ha & Hcs & _).
  destruct (lookup_lt_is_Some_2 (servoAngles s) (servoNum - 1)%nat) as [x Hx]; [lia|].
  unfold angles_valid in Hv. rewrite Forall_lookup in Hv.
  destruct (Hv _ _ Hx) as (z & -> & Hz).
  assert (Hg : array_get (servoAngles s) (servoNum - 1) = Num z)
    by (unfold array_get; now rewrite Hx).
  rewrite H2, Hg. cbn [to_string]. rewrite parseInt_number_to_string.
  apply in_range_spec. now exists z.
Qed.

(** C3.  In every reachable state every entry of the angle vector is an
    integer in [0, 180], one entry per joint, and every step of the event
    loop keeps it so.  The numeric-input update refuses a text that is out
    of range or not a number: nothing is stored and the angles stay as they
    were.  The slider update stores what the slider holds, and that is
    always in range: the slider is a range input declared with min 0 and
    max 180, so it shows the stored angle until the user moves it, and the
    user can move it only to a value within those bounds.  Reset stores 90
    everywhere; send, connect and disconnect do not write the vector. *)
Theorem angles_stay_in_range (hasSerial : bool) (log : option jsstring)
    (n : nat) (s : State) :
  reachable hasSerial log n s ->
  angles_valid s
  /\ length (servoAngles s) = numServos s
  /\ (forall s', step s s' -> angles_valid s')
  /\ (forall servoNum s', updateFromInput servoNum s = Normal s' -> angles_valid s')
  /\ (forall servoNum c, nth1 (cards s) servoNum = Some c ->
        in_range (parseInt (input_value c)) = false ->
        updateFromInput servoNum s = Normal s)
  /\ (forall servoNum c text, nth1 (cards s) servoNum = Some c ->
        in_range (parseInt text) = false ->
        let typed :=
          set_cards (<[(servoNum - 1)%nat := with_input text c]> (cards s)) s in
        updateFromInput servoNum typed = Normal typed
        /\ servoAngles typed = servoAngles s)
  /\ (forall servoNum s', updateFromSlider servoNum s = Normal s' -> angles_valid s')
  /\ (forall servoNum c v s', nth1 (cards s) servoNum = Some c ->
        (slider_min c <= v <= slider_max c)%Z ->
        updateFromSlider servoNum
          (set_cards (<[(servoNum - 1)%nat := with_slider (number_to_string v) c]>
                        (cards s)) s) = Normal s' ->
        (0 <= v <= 180)%Z /\ angles_valid s'
        /\ array_get (servoAngles s') (servoNum - 1) = Num v)
  /\ (forall w, angles_valid (final (resetAllServos w s)))
  /\ (forall w, servoAngles (executePosition w s) = servoAngles s)
  /\ (forall o, servoAngles (executePosition_settled o s) = servoAngles s)
  /\ (forall o1 o2 setup, servoAngles (connect o1 o2 setup s) = servoAngles s)
  /\ (forall t, servoAngles (disconnect t s) = servoAngles s).
Proof.
  intros Hr. pose proof (reachable_well_formed _ _ _ _ Hr) as Hwf.
  pose proof (reachable_rendered _ _ _ _ Hr) as Hrd.
  split; [apply Hwf|]. split; [apply Hwf|]. split.
  { intros s' Hstep. exact (proj1 (step_well_formed s s' Hwf Hstep)). }
  split.
  { intros servoNum s' Hu. exact (proj1 (updateFromInput_well_formed _ _ _ Hwf Hu)). }
  split.
  { intros servoNum c Hc Hv. unfold updateFromInput. now rewrite Hc, Hv. }
  split.
  { intros servoNum c text Hc Hv typed. subst typed.
    apply nth1_Some in Hc as (Hk & Hl & Hlen).
    unfold updateFromInput.
    assert (E : nth1 (cards (set_cards (<[(servoNum - 1)%nat := with_input text c]> (cards s)) s)) servoNum
                = Some (with_input text c)).
    { destruct servoNum as [|i]; [lia|]. cbn [nth1].
      replace (S i - 1)%nat with i by lia. cbn [cards set_cards].
      apply list_lookup_insert_eq. lia. }
    rewrite E. cbn [input_value with_input]. rewrite Hv.
    split; reflexivity. }
  split.
  { intros servoNum s' Hu.
    destruct (nth1 (cards s) servoNum) as [c|] eqn:Hc;
      [|unfold updateFromSlider in Hu; rewrite Hc in Hu; discriminate Hu].
    exact (proj1 (updateFromSlider_well_formed _ _ _ _ Hwf Hc
                    (slider_shows_valid_angle _ _ _ _ Hwf Hrd Hc) Hu)). }
  split.
  { intros servoNum c v s' Hc Hv Hu.
    destruct (card_bounds s servoNum c Hwf Hc) as (Hmin & Hmax & Hi).
    rewrite Hmin, Hmax in Hv. split; [exact Hv|].
    pose proof (step_well_formed s s' Hwf (step_slider servoNum v c s s' Hc
                  ltac:(rewrite Hmin, Hmax; exact Hv) Hu)) as Hwf'.
    split; [apply Hwf'|].
    apply nth1_Some in Hc as (Hk & Hl & Hlen).
    revert Hu. unfold updateFromSlider.
    assert (E : nth1 (cards (set_cards (<[(servoNum - 1)%nat := with_slider (number_to_string v) c]> (cards s)) s)) servoNum
                = Some (with_slider (number_to_string v) c)).
    { destruct servoNum as [|i]; [lia|]. cbn [nth1].
      replace (S i - 1)%nat with i by lia. cbn [cards set_cards].
      apply list_lookup_insert_eq. lia. }
    rewrite E. cbn [slider_value with_slider]. rewrite parseInt_number_to_string.
    intros [= <-].
    cbn [updateSystemState emit set_cards set_servoAngles servoAngles].
    apply array_get_set. }
  split.
  { intros w. exact (proj1 (resetAllServos_well_formed w s Hwf)). }
  split; [intros w; apply executePosition_arm|].
  split; [intros o; apply executePosition_settled_arm|].
  split.
  { intros o1 o2 setup. unfold connect.
    destruct o1; [|reflexivity].
    transitivity (servoAngles (connect_requested (Fulfilled a) (connect_begin s)));
      [apply connect_opened_arm|reflexivity]. }
  intros t. apply disconnect_arm.
Qed.

Lemma angles_stay_in_range_witness :
  let s0 := KukaController true None 5 in
  let moved :=
    set_cards (<[1%nat := with_slider (number_to_string 45) (createServoCard 2)]>
                 (cards s0)) s0 in
  let s1 := final (updateFromSlider 2 moved) in
  angles_valid s1 /\ array_get (servoAngles s1) 1 = Num 45.
Proof.
  intros s0 moved s1.
  assert (Hr : reachable true None 5 s1).
  { apply (reach_step _ _ _ s0); [apply reach_init|].
    apply (step_slider 2 45 (createServoCard 2)).
    - reflexivity.
    - cbn. lia.
    - reflexivity. }
  split; [exact (proj1 (angles_stay_in_range true None 5 s1 Hr))|reflexivity].
Defined.

(** ** The send gate *)

Lemma send_gate_same s s' : same_gate s s' -> send_gate s -> send_gate s'.
Proof. unfold same_gate, send_gate. intros (H1 & H2 & H3). now rewrite H1, H2, H3. Qed.

Lemma same_gate_trans s1 s2 s3 : same_gate s1 s2 -> same_gate s2 s3 -> same_gate s1 s3.
Proof. unfold same_gate. intros (?&?&?) (?&?&?). repeat split; congruence. Qed.

Lemma executePosition_closed (w : Outcome unit) (s : State) :
  connected s = false \/ port s = None \/ _sending s = true ->
  executePosition w s = s.
Proof.
  unfold executePosition. intros [H|[H|H]]; rewrite H; try reflexivity;
    destruct (connected s); try reflexivity; destruct (port s); reflexivity.
Qed.

Lemma send_gate_busy (s : State) :
  send_gate s -> writes s <> [] \/ timers s <> [] -> _sending s = true.
Proof.
  intros [_ H] Hne. destruct (_sending s); [reflexivity|].
  destruct (H eq_refl) as [Hw Ht]. destruct Hne; congruence.
Qed.

Lemma executePosition_gate w s : send_gate s -> send_gate (executePosition w s).
Proof.
  intros Hg. unfold executePosition.
  destruct (connected s); [|exact Hg]. destruct (port s) as [p|]; [|exact Hg].
  destruct (_sending s) eqn:Hs; [exact Hg|].
  destruct Hg as [_ Hg]. destruct (Hg Hs) as [Hw Ht].
  unfold send_gate.
  destruct w; cbn [executePosition_failed cooldown emit set_writes set_timers
    set_sending writes timers _sending]; rewrite Hw, Ht;
    (split; [cbn; lia|discriminate]).
Qed.

Lemma executePosition_settled_gate o s :
  send_gate s -> send_gate (executePosition_settled o s).
Proof.
  intros Hg. pose proof (send_gate_busy s Hg) as Hb.
  unfold executePosition_settled. destruct (writes s) as [|command rest] eqn:Hw;
    [exact Hg|].
  assert (Hs : _sending s = true) by (apply Hb; left; discriminate).
  destruct Hg as [Hlen _]. rewrite Hw in Hlen. cbn [length] in Hlen.
  assert (rest = []) by (destruct rest; [reflexivity|cbn in Hlen; lia]).
  assert (timers s = []) by (destruct (timers s); [reflexivity|cbn in Hlen; lia]).
  subst rest. unfold send_gate.
  destruct o; cbn [executePosition_failed cooldown updateSystemState emit
    set_lastCommand set_writes set_timers writes timers _sending];
    rewrite H0, Hs; (split; [cbn; lia|discriminate]).
Qed.

Lemma timer_fired_gate s : send_gate s -> send_gate (timer_fired s).
Proof.
  intros Hg. unfold timer_fired. destruct (timers s) as [|due rest] eqn:Ht;
    [exact Hg|].
  destruct (due <=? now s)%nat; [|exact Hg].
  destruct Hg as [Hlen _]. rewrite Ht in Hlen. cbn [length] in Hlen.
  assert (rest = []) by (destruct rest; [reflexivity|cbn in Hlen; lia]).
  assert (Hw : writes s = []) by (destruct (writes s); [reflexivity|cbn in Hlen; lia]).
  subst rest. unfold send_gate, cooldown_elapsed.
  cbn [connected set_sending set_timers].
  destruct (connected s); cbn [emit set_sending set_timers writes timers _sending];
    rewrite Hw; (split; [cbn; lia|now split]).
Qed.

Lemma updateFromSlider_gate servoNum s s' :
  updateFromSlider servoNum s = Normal s' -> same_gate s s'.
Proof.
  unfold updateFromSlider. destruct (nth1 (cards s) servoNum); [|discriminate].
  intros [= <-]. repeat split.
Qed.

Lemma updateFromInput_gate servoNum s s' :
  updateFromInput servoNum s = Normal s' -> same_gate s s'.
Proof.
  unfold updateFromInput. destruct (nth1 (cards s) servoNum); [|discriminate].
  destruct (in_range _); intros [= <-]; repeat split.
Qed.

Lemma disconnect_gate t s : same_gate s (disconnect t s).
Proof.
  unfold disconnect.
  destruct (port s), (_reader s), (cancel_throws t); repeat split.
Qed.

Lemma toggleConnection_gate t s : same_gate s (toggleConnection t s).
Proof.
  unfold toggleConnection. destruct (connected s); [apply disconnect_gate|repeat split].
Qed.

Lemma connect_requested_gate o s : same_gate s (connect_requested o s).
Proof. destruct o; repeat split. Qed.

Lemma connect_opened_gate o setup s : same_gate s (connect_opened o setup s).
Proof.
  destruct o; [|repeat split]. unfold connect_opened, startReading.
  cbn [port updateSystemState emit set_lastCommand set_connected].
  destruct (port s), setup; repeat split.
Qed.

Lemma forward_lines_gate clock lines k s : same_gate s (forward_lines clock k lines s).
Proof.
  revert k s. induction lines as [|l lines IH]; intros k s; [repeat split|].
  cbn [forward_lines]. eapply same_gate_trans; [|apply IH].
  unfold appendSerialLog. destruct (serialLog s); repeat split.
Qed.

Lemma read_settled_gate o clock s : same_gate s (read_settled o clock s).
Proof.
  destruct o as [[|c v]| |]; try (repeat split; fail).
  apply forward_lines_gate.
Qed.

Lemma reset_loop_gate idxs s : same_gate s (final (reset_loop idxs s)).
Proof.
  revert s. induction idxs as [|i idxs IH]; intros s; [repeat split|].
  cbn [reset_loop]. destruct (nth1 (cards s) i); [|repeat split].
  eapply same_gate_trans; [|apply IH]. repeat split.
Qed.

Lemma resetAllServos_gate w s : send_gate s -> send_gate (final (resetAllServos w s)).
Proof.
  intros Hg. unfold resetAllServos.
  pose proof (reset_loop_gate (seq 1 (numServos s)) s) as H.
  destruct (reset_loop (seq 1 (numServos s)) s) as [s1|s1]; cbn [final] in *.
  - set (s2 := emit _ (updateSystemState s1)).
    assert (H2 : send_gate s2).
    { eapply send_gate_same; [|exact Hg].
      eapply same_gate_trans; [exact H|repeat split]. }
    destruct (connected s2); [now apply executePosition_gate|exact H2].
  - eapply send_gate_same; [exact H|exact Hg].
Qed.

Lemma step_send_gate s s' : send_gate s -> step s s' -> send_gate s'.
Proof.
  intros Hg Hstep. destruct Hstep as
    [servoNum v c s s' Hc Hv Hu | servoNum text c s s' Hc Hu | w s | o s | s
    | dt s | t s | o s | o setup s | o clock s | w s s' Hr].
  - eapply send_gate_same; [|exact Hg].
    eapply same_gate_trans; [|exact (updateFromSlider_gate _ _ _ Hu)]. repeat split.
  - eapply send_gate_same; [|exact Hg].
    eapply same_gate_trans; [|exact (updateFromInput_gate _ _ _ Hu)]. repeat split.
  - now apply executePosition_gate.
  - now apply executePosition_settled_gate.
  - now apply timer_fired_gate.
  - exact Hg.
  - eapply send_gate_same; [apply toggleConnection_gate|exact Hg].
  - eapply send_gate_same; [apply connect_requested_gate|exact Hg].
  - eapply send_gate_same; [apply connect_opened_gate|exact Hg].
  - eapply send_gate_same; [apply read_settled_gate|exact Hg].
  - pose proof (resetAllServos_gate w s Hg) as H. now rewrite Hr in H.
Qed.

Lemma reachable_send_gate hasSerial log n s :
  reachable hasSerial log n s -> send_gate s.
Proof.
  induction 1 as [|s s' _ IH Hstep]; [|exact (step_send_gate s s' IH Hstep)].
  unfold send_gate, KukaController, checkWebSerialSupport.
  destruct hasSerial; cbn; (split; [lia|now split]).
Qed.

(** C4.  In every reachable state at most one write is in flight, and the
    busy flag is up while a write is in flight or a cool-down timer is
    pending.  A send that finds the controller not connected, without a
    port, or busy returns without any change of state and without writing.
    When a write settles, well or badly, a timer is set 300 ms ahead and the
    controller stays busy; the timer does nothing before it is due.  Once it
    has run, the flag is down, nothing is in flight, and a send on a
    connected controller writes the command to the port again. *)
Theorem send_is_gated_by_busy_flag (hasSerial : bool) (log : option jsstring)
    (n : nat) (s : State) :
  reachable hasSerial log n s ->
  (length (writes s) <= 1)%nat
  /\ (writes s <> [] \/ timers s <> [] -> _sending s = true)
  /\ (forall w,
        connected s = false \/ port s = None \/ _sending s = true
        \/ writes s <> [] \/ timers s <> [] ->
        executePosition w s = s)
  /\ (forall o, writes s <> [] ->
        let s' := executePosition_settled o s in
        _sending s' = true /\ writes s' = []
        /\ timers s' = [(now s + 300)%nat]
        /\ forall w, executePosition w s' = s')
  /\ (forall due rest, timers s = due :: rest -> (now s < due)%nat ->
        timer_fired s = s /\ forall w, executePosition w s = s)
  /\ (forall due rest, timers s = due :: rest -> (due <= now s)%nat ->
        let s' := timer_fired s in
        _sending s' = false /\ writes s' = [] /\ timers s' = []
        /\ connected s' = connected s /\ port s' = port s)
  /\ (forall p, connected s = true -> port s = Some p -> _sending s = false ->
        let s' := executePosition (Fulfilled ()) s in
        writes s' = [build_command s]
        /\ trace s' = trace s ++ [UiSendButton true; Write p (build_command s)]
        /\ _sending s' = true).
Proof.
  intros Hr. pose proof (reachable_send_gate _ _ _ _ Hr) as Hg.
  pose proof (send_gate_busy s Hg) as Hbusy.
  split; [destruct Hg as [Hlen _]; lia|]. split; [exact Hbusy|]. split.
  { intros w H. apply executePosition_closed.
    destruct H as [H|[H|[H|H]]]; auto. }
  split.
  { intros o Hw s'.
    pose proof (executePosition_settled_gate o s Hg) as Hg'. fold s' in Hg'.
    assert (Hs : _sending s = true) by auto.
    assert (E : _sending s' = true /\ writes s' = [] /\ timers s' = [(now s + 300)%nat]).
    { subst s'. unfold executePosition_settled in *.
      destruct (writes s) as [|command rest] eqn:Ew; [congruence|].
      destruct Hg as [Hlen _]. rewrite Ew in Hlen. cbn [length] in Hlen.
      assert (rest = []) by (destruct rest; [reflexivity|cbn in Hlen; lia]).
      assert (Ht : timers s = []) by (destruct (timers s); [reflexivity|cbn in Hlen; lia]).
      subst rest.
      destruct o; cbn [executePosition_failed cooldown updateSystemState emit
        set_lastCommand set_writes set_timers writes timers _sending now];
        rewrite Ht, Hs; repeat split. }
    destruct E as (E1 & E2 & E3).
    split; [exact E1|]. split; [exact E2|]. split; [exact E3|].
    intros w. apply executePosition_closed. right. right. exact E1. }
  split.
  { intros due rest Ht Hlt. split.
    - unfold timer_fired. rewrite Ht.
      destruct (Nat.leb_spec due (now s)); [lia|reflexivity].
    - intros w. apply executePosition_closed. right. right. apply Hbusy.
      right. congruence. }
  split.
  { intros due rest Ht Hle s'. subst s'. unfold timer_fired. rewrite Ht.
    destruct (Nat.leb_spec due (now s)); [|lia].
    destruct Hg as [Hlen _]. rewrite Ht in Hlen. cbn [length] in Hlen.
    assert (rest = []) by (destruct rest; [reflexivity|cbn in Hlen; lia]).
    assert (Hw : writes s = []) by (destruct (writes s); [reflexivity|cbn in Hlen; lia]).
    subst rest. unfold cooldown_elapsed. cbn [connected set_sending set_timers].
    destruct (connected s) eqn:Hc; cbn [emit set_sending set_timers writes
      timers _sending connected port]; rewrite Hw, Hc; repeat split. }
  intros p Hc Hp Hs s'. subst s'. rewrite (executePosition_open _ _ p Hc Hp Hs).
  destruct Hg as [_ Hg]. destruct (Hg Hs) as [Hw _].
  cbn [emit set_writes set_sending writes trace _sending]. rewrite Hw.
  rewrite <- app_assoc. repeat split.
Qed.

Lemma send_is_gated_by_busy_flag_witness :
  let s0 := KukaController true None 5 in
  let t0 := {| cancel_throws := false; release_throws := false; close_throws := false |} in
  let s1 := connect_opened (Fulfilled ()) (ReaderReady 0%nat)
              (connect_requested (Fulfilled 1%nat) (toggleConnection t0 s0)) in
  let s2 := executePosition (Fulfilled ()) s1 in
  writes s2 = [js "S1 90,S2 90,S3 90,S4 90,S5 90" ++ [LF]]
  /\ executePosition (Fulfilled ()) s2 = s2
  /\ timers (executePosition_settled (Fulfilled ()) s2) = [300%nat]
  /\ (length (writes s2) <= 1)%nat.
Proof.
  intros s0 t0 s1 s2.
  assert (Hr : reachable true None 5 s2).
  { apply (reach_step _ _ _ s1); [|apply step_send].
    eapply reach_step; [|apply step_opened].
    eapply reach_step; [|apply step_requested].
    eapply reach_step; [|apply step_toggle].
    apply reach_init. }
  destruct (send_is_gated_by_busy_flag true None 5 s2 Hr)
    as (H1 & H2 & H3 & H4 & H5 & H6 & H7).
  split; [reflexivity|]. split.
  - apply H3. right. right. left. reflexivity.
  - split; [|exact H1].
    assert (Hw : writes s2 <> []) by discriminate.
    exact (proj1 (proj2 (proj2 (H4 (Fulfilled ()) Hw)))).
Defined.

(** ** A failed connect *)

Lemma count_effects_app p tr tr' :
  count_effects p (tr ++ tr') = (count_effects p tr + count_effects p tr')%nat.
Proof. unfold count_effects. now rewrite List.filter_app, length_app. Qed.

(** C5, as the code has it.  When [connect] fails, on the port request or on
    opening, the controller is still not connected, exactly one alert (and
    one console error) is raised, no reader is created and no read started,
    and every field other than the port is as before, so sends stay
    refused.  The port field is untouched when the request itself fails;
    after a failed open it holds the port that was requested. *)
Theorem connect_failure_stays_disconnected (s : State) :
  connected s = false ->
  (forall message opened setup,
     let s' := connect (Failed message) opened setup s in
     connected s' = false /\ port s' = port s /\ same_but_port s s'
     /\ trace s' = trace s ++ [RequestPort;
                               ConsoleError (js "[ERROR] Connection failed:") message;
                               Alert (js "Connection failed: " ++ message)])
  /\ (forall p message setup,
        let s' := connect (Fulfilled p) (Failed message) setup s in
        connected s' = false /\ port s' = Some p /\ same_but_port s s'
        /\ trace s' = trace s ++ [RequestPort; OpenPort p 9600;
                                  ConsoleError (js "[ERROR] Connection failed:") message;
                                  Alert (js "Connection failed: " ++ message)])
  /\ (forall requested message setup,
        let s' := connect requested (Failed message) setup s in
        count_effects is_alert (trace s') = S (count_effects is_alert (trace s))
        /\ count_effects is_start_read (trace s') = count_effects is_start_read (trace s)
        /\ _reader s' = _reader s
        /\ forall w, executePosition w s' = s').
Proof.
  intros Hc.
  assert (A : forall message opened setup,
     let s' := connect (Failed message) opened setup s in
     connected s' = false /\ port s' = port s /\ same_but_port s s'
     /\ trace s' = trace s ++ [RequestPort;
                               ConsoleError (js "[ERROR] Connection failed:") message;
                               Alert (js "Connection failed: " ++ message)]).
  { intros message opened setup. cbn. rewrite <- !app_assoc.
    repeat split; assumption. }
  assert (B : forall p message setup,
        let s' := connect (Fulfilled p) (Failed message) setup s in
        connected s' = false /\ port s' = Some p /\ same_but_port s s'
        /\ trace s' = trace s ++ [RequestPort; OpenPort p 9600;
                                  ConsoleError (js "[ERROR] Connection failed:") message;
                                  Alert (js "Connection failed: " ++ message)]).
  { intros p message setup. cbn. rewrite <- !app_assoc.
    repeat split; assumption. }
  split; [exact A|]. split; [exact B|].
  intros requested message setup s'. subst s'.
  destruct requested as [p|m0].
  - destruct (B p message setup) as (H1 & H2 & H3 & H4). rewrite H4.
    rewrite !count_effects_app. split; [cbn; lia|]. split; [cbn; lia|].
    split; [apply H3|]. intros w. apply executePosition_closed. now left.
  - destruct (A m0 (Failed message) setup) as (H1 & H2 & H3 & H4). rewrite H4.
    rewrite !count_effects_app. split; [cbn; lia|]. split; [cbn; lia|].
    split; [apply H3|]. intros w. apply executePosition_closed. now left.
Qed.

Lemma connect_failure_stays_disconnected_witness :
  let s := KukaController true None 5 in
  connected (connect (Failed (js "No port selected")) (Fulfilled ()) NotReadable s) = false
  /\ port (connect (Failed (js "No port selected")) (Fulfilled ()) NotReadable s) = None.
Proof.
  intros s.
  destruct (proj1 (connect_failure_stays_disconnected s eq_refl)
              (js "No port selected") (Fulfilled ()) NotReadable) as (H1 & H2 & _).
  split; [exact H1|exact H2].
Defined.

(** C5 as stated fails when it is the open that fails: the port obtained
    from the request stays in the port field. *)
Lemma connect_open_failure_keeps_port :
  let s := KukaController true None 5 in
  let s' := connect (Fulfilled 7%nat) (Failed (js "Failed to open serial port"))
              NotReadable s in
  port s = None /\ connected s' = false /\ port s' = Some 7%nat /\ port s' <> port s.
Proof. cbn. repeat split; discriminate. Qed.

(** ** Trimming *)

Lemma trimStart_blank (l : jsstring) : trimStart l = [] <-> blank l.
Proof.
  unfold blank. induction l as [|c l IH]; cbn [trimStart].
  - split; [constructor|reflexivity].
  - destruct (is_white_space c) eqn:Hc.
    + rewrite IH. split; [now constructor|now inversion 1].
    + split; [discriminate|]. inversion 1. congruence.
Qed.

Lemma trimStart_head (l : jsstring) :
  trimStart l = [] \/ exists c r, trimStart l = c :: r /\ is_white_space c = false.
Proof.
  induction l as [|c l IH]; cbn [trimStart]; [now left|].
  destruct (is_white_space c) eqn:Hc; [exact IH|]. right. now exists c, l.
Qed.

Lemma trim_blank (l : jsstring) : trim l = [] <-> blank l.
Proof.
  unfold trim, trimEnd. split.
  - intros H. apply trimStart_blank.
    destruct (trimStart_head l) as [E|(c & r & E & Hc)]; [exact E|].
    rewrite E in H. apply (f_equal (@rev N)) in H. rewrite rev_involutive in H.
    cbn [rev] in H. apply trimStart_blank in H. unfold blank in H.
    apply Forall_app in H as [_ H]. apply Forall_inv in H. congruence.
  - intros H. apply trimStart_blank in H. now rewrite H.
Qed.

Lemma trim_length_blank (l : jsstring) : length (trim l) ≠ 0%nat <-> ~ blank l.
Proof.
  rewrite <- trim_blank.
  destruct (trim l); cbn [length]; split; intros H; congruence.
Qed.

(** ** The read loop *)

Lemma forward_lines_log (clock : nat -> jsstring) (lines : list jsstring)
    (k : nat) (s : State) :
  serialLog (forward_lines clock k lines s)
  = (fun pre => pre ++ concat (imap (fun i => log_entry clock (k + i)) lines))
      <$> serialLog s.
Proof.
  revert k s. induction lines as [|l lines IH]; intros k s.
  - cbn. destruct (serialLog s); cbn; [now rewrite app_nil_r|reflexivity].
  - cbn [forward_lines]. rewrite IH. unfold appendSerialLog.
    rewrite imap_cons. cbn [concat]. replace (k + 0)%nat with k by lia.
    destruct (serialLog s) as [pre|] eqn:E; cbn [set_serialLog serialLog fmap option_fmap option_map].
    + f_equal.
      change (js "[" ++ clock k ++ js "] " ++ l ++ [LF]) with (log_entry clock k l).
      rewrite <- app_assoc. do 3 f_equal.
      apply imap_ext. intros i x _. unfold compose.
      now replace (S k + i)%nat with (k + S i)%nat by lia.
    + now rewrite E.
Qed.

Lemma filter_nonblank_nonempty (ls : list jsstring) :
  Forall (fun l => blank l -> l = []) ls ->
  filter (fun l => ~ blank l) ls = filter (fun l : jsstring => l <> []) ls.
Proof.
  induction 1 as [|l ls Hl Hls IH]; [reflexivity|].
  rewrite !filter_cons. repeat case_decide.
  - now f_equal.
  - subst l. exfalso. apply H. constructor.
  - exfalso. apply H0, Hl. destruct (decide (blank l)); [assumption|contradiction].
  - exact IH.
Qed.

(** C6, as the code has it.  The read loop cuts a chunk at every line feed,
    with the carriage return in front of it when there is one, drops the
    lines that are empty or hold white space only, and hands every other
    line, as it is and in order, to [appendSerialLog], which adds it to the
    log behind its time stamp.  No empty line is ever handed over; where no
    line is white space only, these are exactly the non-empty lines.  The
    chunk "HELLO\r\nOK\n" gives the two calls "HELLO" and "OK". *)
Theorem read_loop_forwards_lines (value : jsstring) (clock : nat -> jsstring)
    (s : State) :
  chunk_lines value = filter (fun l => ~ blank l) (split_lines value)
  /\ Forall (fun l => l <> []) (chunk_lines value)
  /\ read_settled (Chunk value) clock s
     = forward_lines clock 0 (chunk_lines value) s
  /\ serialLog (read_settled (Chunk value) clock s)
     = (fun pre => pre ++ concat (imap (log_entry clock) (chunk_lines value)))
         <$> serialLog s
  /\ (Forall (fun l => blank l -> l = []) (split_lines value) ->
      chunk_lines value = lines_spec value)
  /\ chunk_lines (js "HELLO" ++ [CR; LF] ++ js "OK" ++ [LF]) = [js "HELLO"; js "OK"].
Proof.
  assert (E : chunk_lines value = filter (fun l => ~ blank l) (split_lines value)).
  { unfold chunk_lines. apply list_filter_iff. intros l. apply trim_length_blank. }
  assert (R : read_settled (Chunk value) clock s
              = forward_lines clock 0 (chunk_lines value) s).
  { destruct value as [|c v]; reflexivity. }
  split; [exact E|]. split.
  { rewrite E. apply Forall_forall. intros l Hl.
    apply list_elem_of_filter in Hl as [Hl _]. intros ->. apply Hl. constructor. }
  split; [exact R|]. split.
  { rewrite R. apply (forward_lines_log clock (chunk_lines value) 0 s). }
  split; [|reflexivity].
  intros H. rewrite E. unfold lines_spec. now apply filter_nonblank_nonempty.
Qed.

Lemma read_loop_forwards_lines_witness :
  chunk_lines (js "HELLO" ++ [CR; LF] ++ js "OK" ++ [LF])
  = lines_spec (js "HELLO" ++ [CR; LF] ++ js "OK" ++ [LF]).
Proof.
  refine (proj1 (proj2 (proj2 (proj2 (proj2
    (read_loop_forwards_lines (js "HELLO" ++ [CR; LF] ++ js "OK" ++ [LF])
       (fun _ => js "12:00:00") (KukaController true (Some []) 5)))))) _).
  repeat constructor; intros H; repeat (apply Forall_inv in H as H'; try discriminate H');
    try reflexivity.
Defined.

(** C6 as stated fails on a line of white space: it is not empty, yet the
    read loop drops it. *)
Lemma read_loop_drops_white_space_line :
  let value := js " " ++ [LF] ++ js "OK" ++ [LF] in
  lines_spec value = [js " "; js "OK"]
  /\ chunk_lines value = [js "OK"]
  /\ chunk_lines value <> lines_spec value.
Proof. cbv zeta. split; [reflexivity|]. split; [reflexivity|]. discriminate. Qed.

(** ** Disconnect *)

(** C7, as the code has it.  [disconnect] cannot fail and always ends not
    connected, without a port, with "Disconnected" as the last command,
    whatever raises during the teardown.  With a port it cancels the reader
    and, unless the cancel raised, releases the reader's lock, then closes
    the port; it never touches the writer or the write in flight.  Without a
    port it calls nothing on the host but still shows the disconnected state
    and sets the last command.  A controller that is not connected can still
    hold a port: [connect] stores it before [open] settles, and a failed
    [open] leaves it there; [disconnect] then closes that port.  [connect]
    has no guard of its own: the toggle calls it only while not connected
    and calls [disconnect] otherwise. *)
Theorem disconnect_always_ends_disconnected (t : Teardown) (s : State) :
  let s' := disconnect t s in
  connected s' = false /\ port s' = None /\ lastCommand s' = js "Disconnected"
  /\ same_arm s s' /\ same_gate s s'
  /\ count_effects is_release_writer (trace s')
     = count_effects is_release_writer (trace s)
  /\ (forall t', cancel_throws t' = cancel_throws t -> disconnect t' s = s')
  /\ (forall p r, port s = Some p -> _reader s = Some r ->
        trace s' = trace s ++ [CancelReader r]
                     ++ (if cancel_throws t then [] else [ReleaseReader r])
                     ++ [ClosePort p] ++ disconnect_display s)
  /\ (forall p, port s = Some p -> _reader s = None ->
        trace s' = trace s ++ [ClosePort p] ++ disconnect_display s)
  /\ (port s = None -> trace s' = trace s ++ disconnect_display s)
  /\ (connected s = true -> toggleConnection t s = s')
  /\ (connected s = false -> toggleConnection t s = connect_begin s)
  /\ (forall p setup,
        let s2 := connect (Fulfilled p) (Fulfilled ()) setup s in
        connected s2 = true /\ port s2 = Some p /\ lastCommand s2 = js "Connected")
  /\ (forall p message setup, _reader s = None ->
        let s1 := connect (Fulfilled p) (Failed message) setup s in
        connected s1 = connected s /\ port s1 = Some p
        /\ trace (disconnect t s1)
           = trace s1 ++ [ClosePort p] ++ disconnect_display s1).
Proof.
  cbv zeta.
  assert (C : forall e tr, count_effects is_release_writer (tr ++ [e])
               = (count_effects is_release_writer tr
                  + count_effects is_release_writer [e])%nat)
    by (intros; apply count_effects_app).
  assert (D : forall s1 p, port s1 = Some p -> _reader s1 = None ->
               trace (disconnect t s1)
               = trace s1 ++ [ClosePort p] ++ disconnect_display s1).
  { intros s1 p Hp Hr. unfold disconnect, disconnect_display, positions.
    rewrite Hp, Hr.
    cbn [updateSystemState emit set_port set_connected set_lastCommand trace
         connected lastCommand servoAngles app];
      rewrite <- ?app_assoc; reflexivity. }
  split; [reflexivity|]. split.
  { unfold disconnect. destruct (port s) eqn:Hp; [|exact Hp].
    destruct (_reader s), (cancel_throws t); reflexivity. }
  split; [reflexivity|]. split; [apply disconnect_arm|].
  split; [apply disconnect_gate|]. split.
  { unfold disconnect, disconnect_display.
    destruct (port s), (_reader s), (cancel_throws t);
      cbn [updateSystemState emit set_port set_connected set_lastCommand trace];
      rewrite ?C; cbn; lia. }
  split.
  { intros t' Ht. unfold disconnect. now rewrite Ht. }
  split.
  { intros p r Hp Hr. unfold disconnect, disconnect_display, positions.
    rewrite Hp, Hr. destruct (cancel_throws t);
      cbn [updateSystemState emit set_port set_connected set_lastCommand trace
           connected lastCommand servoAngles app];
      rewrite <- ?app_assoc; reflexivity. }
  split; [intros p; apply D|].
  split.
  { intros Hp. unfold disconnect, disconnect_display, positions. rewrite Hp.
    cbn [updateSystemState emit set_port set_connected set_lastCommand trace
         connected lastCommand servoAngles app];
      rewrite <- ?app_assoc; reflexivity. }
  split; [intros Hc; unfold toggleConnection; now rewrite Hc|].
  split; [intros Hc; unfold toggleConnection; now rewrite Hc|].
  split.
  { intros p setup. unfold connect, connect_opened, startReading.
    cbn [connect_requested connect_begin updateSystemState emit set_port
         set_connected set_lastCommand port].
    destruct setup; repeat split. }
  intros p message setup Hr.
  split; [reflexivity|]. split; [reflexivity|].
  apply D; [reflexivity|exact Hr].
Qed.

Lemma disconnect_always_ends_disconnected_witness :
  let t := {| cancel_throws := true; release_throws := true; close_throws := true |} in
  let s := connect (Fulfilled 1%nat) (Fulfilled ()) (ReaderReady 0%nat)
             (KukaController true None 5) in
  trace (disconnect t s)
  = trace s ++ [CancelReader 0%nat] ++ [] ++ [ClosePort 1%nat] ++ disconnect_display s.
Proof.
  intros t s.
  destruct (disconnect_always_ends_disconnected t s)
    as (_ & _ & _ & _ & _ & _ & _ & H & _).
  exact (H 1%nat 0%nat eq_refl eq_refl).
Defined.

(** C7 as stated fails in three places.  On a controller that is not
    connected, [disconnect] is not a no-op: the last command changes, and a
    port left behind by a failed [open] is closed.  On a connected one,
    [connect] is not refused: it takes the new port.  And [disconnect]
    leaves the write in flight, with its writer lock, as it is. *)
Lemma disconnect_and_connect_are_not_no_ops :
  let t := {| cancel_throws := false; release_throws := false; close_throws := false |} in
  let s0 := KukaController true None 5 in
  let s1 := connect (Fulfilled 1%nat) (Fulfilled ()) (ReaderReady 0%nat) s0 in
  let s2 := executePosition (Fulfilled ()) s1 in
  let s3 := connect (Fulfilled 7%nat) (Failed (js "busy")) NotReadable s0 in
  (connected s0 = false /\ lastCommand s0 = js "None"
   /\ lastCommand (disconnect t s0) = js "Disconnected"
   /\ disconnect t s0 <> s0)
  /\ (connected s3 = false /\ port s3 = Some 7%nat
      /\ trace (disconnect t s3)
         = trace s3 ++ [ClosePort 7%nat] ++ disconnect_display s3)
  /\ (connected s1 = true /\ port s1 = Some 1%nat
      /\ port (connect (Fulfilled 2%nat) (Fulfilled ()) (ReaderReady 3%nat) s1) = Some 2%nat
      /\ connect (Fulfilled 2%nat) (Fulfilled ()) (ReaderReady 3%nat) s1 <> s1)
  /\ (writes s2 <> [] /\ writes (disconnect t s2) = writes s2
      /\ count_effects is_release_writer (trace (disconnect t s2)) = 0%nat).
Proof.
  cbv zeta. split; [|split; [|split]].
  - split; [vm_compute; reflexivity|]. split; [vm_compute; reflexivity|].
    split; [vm_compute; reflexivity|].
    intros H. apply (f_equal lastCommand) in H. vm_compute in H. discriminate H.
  - split; [vm_compute; reflexivity|]. split; vm_compute; reflexivity.
  - split; [vm_compute; reflexivity|]. split; [vm_compute; reflexivity|].
    split; [vm_compute; reflexivity|].
    intros H. apply (f_equal port) in H. vm_compute in H. discriminate H.
  - split; [|split; vm_compute; reflexivity].
    intros H. vm_compute in H. discriminate H.
Qed.

(** ** The command has no white space at its ends *)

Lemma starts_tight_app x y : starts_tight x -> starts_tight (x ++ y).
Proof. intros (c & r & -> & H). now exists c, (r ++ y). Qed.

Lemma ends_tight_app x y : ends_tight y -> ends_tight (x ++ y).
Proof. intros (r & d & -> & H). exists (x ++ r), d. now rewrite app_assoc. Qed.

Lemma ends_tight_cons c x : ends_tight x -> ends_tight (c :: x).
Proof. apply (ends_tight_app [c]). Qed.

Lemma ends_tight_digits (d : Decimal.uint) :
  d <> Nil -> ends_tight (js (NilEmpty.string_of_uint d)).
Proof.
  induction d; intros Hd; [congruence | ..];
    cbn [NilEmpty.string_of_uint]; rewrite js_cons;
    (assert (Hn : d = Nil \/ d <> Nil)
       by (destruct d; [left; reflexivity | right; discriminate ..]);
     destruct Hn as [->|Hn];
      [eexists [], _; split; [reflexivity|reflexivity]
      |apply ends_tight_cons; now apply IHd]).
Qed.

Lemma ends_tight_number (z : Z) : ends_tight (number_to_string z).
Proof.
  unfold number_to_string. destruct z as [|p|p].
  - eexists [], _. split; reflexivity.
  - cbn [Z.to_int NilZero.string_of_int]. unfold NilZero.string_of_uint.
    pose proof (DecimalPos.Unsigned.to_uint_nonnil p) as Hp.
    destruct (Pos.to_uint p); [congruence | apply ends_tight_digits; discriminate ..].
  - cbn [Z.to_int NilZero.string_of_int]. rewrite js_cons. apply ends_tight_cons.
    unfold NilZero.string_of_uint.
    pose proof (DecimalPos.Unsigned.to_uint_nonnil p) as Hp.
    destruct (Pos.to_uint p); [congruence | apply ends_tight_digits; discriminate ..].
Qed.

Lemma ends_tight_to_string (v : value) : ends_tight (to_string v).
Proof.
  destruct v as [| |z]; [| |apply ends_tight_number].
  - exists (js "undefine"), 100. split; reflexivity.
  - exists (js "Na"), 78. split; reflexivity.
Qed.

Lemma piece_tight (a : list value) (i : nat) :
  starts_tight (piece a i) /\ ends_tight (piece a i).
Proof.
  unfold piece. split.
  - eexists 83, _. split; reflexivity.
  - apply ends_tight_app, ends_tight_app, ends_tight_app, ends_tight_to_string.
Qed.

Lemma join_tight (sep : jsstring) (ps : list jsstring) :
  ps <> [] -> Forall (fun p => starts_tight p /\ ends_tight p) ps ->
  starts_tight (join sep ps) /\ ends_tight (join sep ps).
Proof.
  induction ps as [|p ps IH]; [congruence|]. intros _ H.
  apply Forall_cons in H as [[Hs He] Hps]. destruct ps as [|q ps].
  - now split.
  - cbn [join]. split; [now apply starts_tight_app|].
    apply ends_tight_app, ends_tight_app. now apply IH.
Qed.

Lemma trimStart_tight (x : jsstring) : starts_tight x -> trimStart x = x.
Proof. intros (c & r & -> & H). cbn [trimStart]. now rewrite H. Qed.

Lemma trim_line (x : jsstring) :
  x = [] \/ (starts_tight x /\ ends_tight x) -> trim (x ++ [LF]) = x.
Proof.
  intros [->|[Hs (r & d & E & Hd)]]; [reflexivity|].
  unfold trim, trimEnd.
  rewrite (trimStart_tight (x ++ [LF])) by now apply starts_tight_app.
  rewrite rev_app_distr. cbn [rev app trimStart].
  change (is_white_space LF) with true. cbv iota.
  subst x. rewrite rev_app_distr. cbn [rev app trimStart]. rewrite Hd.
  cbn [rev]. now rewrite rev_involutive.
Qed.

Lemma trim_build_command (s : State) : trim (build_command s) = command_loop s.
Proof.
  unfold build_command. apply trim_line. rewrite command_loop_join.
  destruct (numServos s) as [|n] eqn:En; [now left|right].
  apply join_tight.
  - cbn [seq map]. discriminate.
  - apply List.Forall_forall. intros p Hp. apply in_map_iff in Hp as (i & <- & _).
    apply piece_tight.
Qed.

(** ** The last command *)

Lemma executePosition_same_but_send w s :
  lastCommand (executePosition w s) = lastCommand s
  /\ same_but_send s (executePosition w s).
Proof.
  unfold executePosition.
  destruct (connected s) eqn:Hc, (port s) eqn:Hp, (_sending s), w;
    repeat split; cbn; congruence.
Qed.

(** C10, as the code has it.  A send that goes through puts the command in
    flight, raises the busy flag and leaves the last command as it was.  When
    that write settles well, whatever ran in between, the last command
    becomes the command without its final line feed; when it fails, or when
    the writer could not be had, the last command stays, and the failure is
    shown in an alert and on the console, not raised.  The last command is
    not all the path writes: the busy flag is up from the start of the send,
    stays up when the write has settled, whichever way, and comes down only
    when the timer that the path sets 300 ms ahead runs.  Angles, joint
    count, port, connection flag, reader, cards and log are never written on
    this path. *)
Theorem send_records_last_command (s0 : State) (p : Port) :
  connected s0 = true -> port s0 = Some p -> _sending s0 = false ->
  writes s0 = [] ->
  let s1 := executePosition (Fulfilled ()) s0 in
  writes s1 = [build_command s0]
  /\ lastCommand s1 = lastCommand s0
  /\ same_but_send s0 s1
  /\ (forall s, writes s = writes s1 ->
        let s2 := executePosition_settled (Fulfilled ()) s in
        lastCommand s2 = command_loop s0
        /\ build_command s0 = lastCommand s2 ++ [LF]
        /\ same_but_send s s2)
  /\ (forall s message, writes s = writes s1 ->
        let s2 := executePosition_settled (Failed message) s in
        lastCommand s2 = lastCommand s
        /\ same_but_send s s2
        /\ trace s2 = trace s ++ [ReleaseWriter;
             ConsoleError (js "[ERROR] Command execution failed:") message;
             Alert (js "Failed to execute command: " ++ message);
             SetTimeout 300])
  /\ (forall message,
        let s2 := executePosition (Failed message) s0 in
        lastCommand s2 = lastCommand s0
        /\ same_but_send s0 s2
        /\ _sending s2 = true /\ writes s2 = []
        /\ timers s2 = timers s0 ++ [(now s0 + 300)%nat]
        /\ trace s2 = trace s0 ++ [UiSendButton true;
             ConsoleError (js "[ERROR] Command execution failed:") message;
             Alert (js "Failed to execute command: " ++ message);
             SetTimeout 300])
  /\ (_sending s1 = true /\ timers s1 = timers s0)
  /\ (forall s o, writes s = writes s1 ->
        let s2 := executePosition_settled o s in
        _sending s2 = _sending s /\ writes s2 = []
        /\ timers s2 = timers s ++ [(now s + 300)%nat])
  /\ (forall s due rest, timers s = due :: rest -> (due <= now s)%nat ->
        let s2 := timer_fired s in
        _sending s2 = false /\ timers s2 = rest
        /\ lastCommand s2 = lastCommand s /\ writes s2 = writes s
        /\ same_but_send s s2).
Proof.
  intros Hc Hp Hs Hw. cbv zeta.
  assert (W : writes (executePosition (Fulfilled ()) s0) = [build_command s0]).
  { rewrite (executePosition_open _ _ p Hc Hp Hs).
    cbn [emit set_writes set_sending writes]. now rewrite Hw. }
  split; [exact W|]. split; [apply executePosition_same_but_send|].
  split; [apply executePosition_same_but_send|]. split.
  { intros s E. rewrite W in E. unfold executePosition_settled. rewrite E.
    cbn [cooldown updateSystemState emit set_lastCommand set_writes set_timers
         lastCommand].
    rewrite trim_build_command. repeat split. }
  split.
  { intros s message E. rewrite W in E. unfold executePosition_settled. rewrite E.
    cbn [executePosition_failed cooldown emit set_writes set_timers lastCommand trace].
    rewrite <- !app_assoc. repeat split. }
  split.
  { intros message. split; [apply executePosition_same_but_send|].
    split; [apply executePosition_same_but_send|].
    rewrite (executePosition_open _ _ p Hc Hp Hs).
    cbn [executePosition_failed cooldown emit set_sending set_timers trace
         _sending writes timers now].
    split; [reflexivity|]. split; [exact Hw|]. split; [reflexivity|].
    now rewrite <- !app_assoc. }
  split.
  { rewrite (executePosition_open _ _ p Hc Hp Hs). split; reflexivity. }
  split.
  { intros s o E. rewrite W in E. unfold executePosition_settled. rewrite E.
    destruct o; repeat split. }
  intros s due rest Ht Hdue. unfold timer_fired. rewrite Ht.
  destruct (Nat.leb_spec due (now s)) as [_|Hlt]; [|lia].
  unfold cooldown_elapsed.
  cbn [set_sending set_timers connected].
  destruct (connected s); repeat split.
Qed.

Lemma send_records_last_command_witness :
  let s0 := connect (Fulfilled 1%nat) (Fulfilled ()) (ReaderReady 0%nat)
              (KukaController true None 5) in
  lastCommand (executePosition_settled (Fulfilled ())
                 (executePosition (Fulfilled ()) s0))
  = js "S1 90,S2 90,S3 90,S4 90,S5 90".
Proof.
  intros s0.
  destruct (send_records_last_command s0 1%nat eq_refl eq_refl eq_refl eq_refl)
    as (_ & _ & _ & H & _).
  exact (proj1 (H (executePosition (Fulfilled ()) s0) eq_refl)).
Defined.

(** C10 as stated fails in its last clause: the last command is not the
    only state the send path writes.  The busy flag, down before the send,
    is up after the write has settled, whether it went well or failed, and
    a timer is pending. *)
Lemma send_path_also_sets_busy_flag :
  let s0 := connect (Fulfilled 1%nat) (Fulfilled ()) (ReaderReady 0%nat)
              (KukaController true None 5) in
  let s1 := executePosition (Fulfilled ()) s0 in
  let sent := executePosition_settled (Fulfilled ()) s1 in
  let lost := executePosition_settled (Failed (js "lost")) s1 in
  (_sending s0 = false /\ timers s0 = [])
  /\ (lastCommand sent = js "S1 90,S2 90,S3 90,S4 90,S5 90"
      /\ _sending sent = true /\ timers sent = [300%nat])
  /\ (lastCommand lost = lastCommand s0 /\ servoAngles lost = servoAngles s0
      /\ _sending lost = true /\ _sending lost <> _sending s0
      /\ timers lost = [300%nat]).
Proof.
  cbv zeta. split; [split; vm_compute; reflexivity|].
  split; [repeat split; vm_compute; reflexivity|].
  split; [vm_compute; reflexivity|]. split; [vm_compute; reflexivity|].
  split; [vm_compute; reflexivity|]. split; [|vm_compute; reflexivity].
  intros H. vm_compute in H. discriminate H.
Qed.

(** ** Reset *)

Lemma same_but_arm_trans s1 s2 s3 :
  same_but_arm s1 s2 -> same_but_arm s2 s3 -> same_but_arm s1 s3.
Proof.
  unfold same_but_arm.
  intros (?&?&?&?&?&?&?&?&?&?&?) (?&?&?&?&?&?&?&?&?&?&?).
  repeat split; congruence.
Qed.

(** The loop over the joints [a+1 .. a+m] ends normally when every one of
    them has a card and an angle, with 90 at their places and the other
    angles as they were. *)
Lemma reset_loop_spec (m a : nat) (s : State) :
  length (servoAngles s) = length (cards s) ->
  (a + m <= length (cards s))%nat ->
  exists s1,
    reset_loop (seq (S a) m) s = Normal s1
    /\ same_but_arm s s1
    /\ length (servoAngles s1) = length (servoAngles s)
    /\ length (cards s1) = length (cards s)
    /\ forall j, servoAngles s1 !! j
                 = if decide (a <= j < a + m)%nat then Some (Num 90)
                   else servoAngles s !! j.
Proof.
  revert a s. induction m as [|m IH]; intros a s Hl Hm.
  - exists s. split; [reflexivity|]. split; [repeat split|].
    split; [reflexivity|]. split; [reflexivity|].
    intros j. case_decide; [lia|reflexivity].
  - cbn [seq reset_loop nth1].
    destruct (lookup_lt_is_Some_2 (cards s) a ltac:(lia)) as [c Hc].
    rewrite Hc. replace (S a - 1)%nat with a by lia.
    set (s' := set_servoAngles _ (set_cards _ s)).
    assert (Ha : servoAngles s' = <[a:=Num 90]> (servoAngles s)).
    { subst s'. cbn [set_servoAngles set_cards servoAngles].
      apply array_set_in_place. lia. }
    destruct (IH (S a) s') as (s1 & H1 & H2 & H3 & H4 & H5).
    + rewrite Ha. subst s'. cbn [set_servoAngles set_cards cards].
      rewrite !length_insert. exact Hl.
    + subst s'. cbn [set_servoAngles set_cards cards]. rewrite length_insert. lia.
    + exists s1. split; [exact H1|]. split.
      { eapply same_but_arm_trans; [|exact H2]. repeat split. }
      split; [rewrite H3, Ha; apply length_insert|].
      split; [rewrite H4; subst s'; cbn [set_servoAngles set_cards cards];
              apply length_insert|].
      intros j. rewrite H5, Ha. repeat case_decide; try lia; try reflexivity.
      * assert (j = a) by lia. subst j. apply list_lookup_insert_eq. lia.
      * apply list_lookup_insert_ne. lia.
Qed.

Lemma reset_loop_home (s : State) :
  length (servoAngles s) = numServos s -> length (cards s) = numServos s ->
  exists s1,
    reset_loop (seq 1 (numServos s)) s = Normal s1
    /\ same_but_arm s s1
    /\ servoAngles s1 = replicate (numServos s) (Num 90).
Proof.
  intros Ha Hc.
  destruct (reset_loop_spec (numServos s) 0 s) as (s1 & H1 & H2 & H3 & H4 & H5);
    [congruence|lia|].
  exists s1. split; [exact H1|]. split; [exact H2|].
  apply list_eq. intros j. rewrite H5.
  case_decide as Hj.
  - symmetry. apply lookup_replicate_2. lia.
  - rewrite (lookup_ge_None_2 (servoAngles s)) by lia.
    symmetry. apply lookup_ge_None_2. rewrite length_replicate. lia.
Qed.

(** C8.  On a controller with a card and an angle for every joint,
    [resetAllServos] returns normally with every angle at 90, whatever the
    angles were.  When the controller is not connected nothing else happens
    beyond the display: no write.  When it is connected, [executePosition]
    is called exactly once, on the state with all angles at 90; through an
    open gate it writes the command of the all-90 vector, once.  A writer
    that cannot be had is reported by that call in its own alert, as for any
    send, and the reset still returns normally. *)
Theorem resetAllServos_homes_then_sends (w : Outcome unit) (s : State) :
  length (servoAngles s) = numServos s -> length (cards s) = numServos s ->
  exists s1,
    reset_loop (seq 1 (numServos s)) s = Normal s1
    /\ same_but_arm s s1
    /\ servoAngles s1 = replicate (numServos s) (Num 90)
    /\ let s2 := emit (ConsoleLog (js "[SYSTEM] All joints reset to home position"))
                    (updateSystemState s1) in
       resetAllServos w s
       = Normal (if connected s then executePosition w s2 else s2)
       /\ servoAngles (final (resetAllServos w s)) = replicate (numServos s) (Num 90)
       /\ (connected s = false ->
             count_effects is_write (trace (final (resetAllServos w s)))
             = count_effects is_write (trace s)
             /\ writes (final (resetAllServos w s)) = writes s)
       /\ (forall p, connected s = true -> port s = Some p -> _sending s = false ->
             w = Fulfilled () ->
             trace (final (resetAllServos w s))
             = trace s2 ++ [UiSendButton true;
                            Write p (encode_spec (replicate (numServos s) 90%Z))]
             /\ count_effects is_write (trace (final (resetAllServos w s)))
                = S (count_effects is_write (trace s)))
       /\ (forall p message, connected s = true -> port s = Some p ->
             _sending s = false -> w = Failed message ->
             trace (final (resetAllServos w s))
             = trace s2 ++ [UiSendButton true;
                  ConsoleError (js "[ERROR] Command execution failed:") message;
                  Alert (js "Failed to execute command: " ++ message);
                  SetTimeout 300])
       /\ (_sending s = true -> final (resetAllServos w s) = s2).
Proof.
  intros Ha Hc.
  destruct (reset_loop_home s Ha Hc) as (s1 & H1 & H2 & H3).
  exists s1. split; [exact H1|]. split; [exact H2|]. split; [exact H3|].
  cbv zeta. set (s2 := emit _ (updateSystemState s1)).
  destruct H2 as (Hn & Hp & Hcn & Hlc & Hs & Hrd & Hlog & Hnow & Hw & Ht & Htr).
  assert (Hc2 : connected s2 = connected s) by exact Hcn.
  assert (Htr2 : exists e1 e2, trace s2 = trace s ++ [e1; e2]
                                /\ is_write e1 = false /\ is_write e2 = false).
  { eexists _, _. subst s2. cbn [updateSystemState emit trace].
    rewrite Htr, <- app_assoc. repeat split. }
  assert (R : resetAllServos w s
              = Normal (if connected s then executePosition w s2 else s2)).
  { unfold resetAllServos. rewrite H1. fold s2. now rewrite Hc2. }
  split; [exact R|]. rewrite R. cbn [final].
  assert (Cw : count_effects is_write (trace s2) = count_effects is_write (trace s)).
  { destruct Htr2 as (e1 & e2 & E & W1 & W2). rewrite E, count_effects_app.
    unfold count_effects at 2. cbn [List.filter]. rewrite W1, W2. cbn. lia. }
  split.
  { destruct (connected s); [|exact H3].
    destruct (executePosition_arm w s2) as (_ & E & _). rewrite E. exact H3. }
  split.
  { intros Hf. rewrite Hf. split; [exact Cw|exact Hw]. }
  split.
  { intros p Hcon Hport Hsend ->. rewrite Hcon.
    assert (Hc3 : connected s2 = true) by congruence.
    assert (Hp3 : port s2 = Some p) by (subst s2; cbn; congruence).
    assert (Hs3 : _sending s2 = false) by (subst s2; cbn; congruence).
    assert (E : build_command s2 = encode_spec (replicate (numServos s) 90%Z)).
    { apply build_command_encode_spec.
      - subst s2. cbn [updateSystemState emit servoAngles]. rewrite H3.
        now rewrite <- (fmap_replicate Num).
      - rewrite length_replicate. subst s2. cbn. congruence. }
    rewrite (executePosition_open _ _ p Hc3 Hp3 Hs3).
    cbn [emit set_writes set_sending trace]. rewrite <- app_assoc, E.
    split; [reflexivity|].
    rewrite (count_effects_app _ (trace s2)), Cw. cbn. lia. }
  split.
  { intros p message Hcon Hport Hsend ->. rewrite Hcon.
    assert (Hc3 : connected s2 = true) by congruence.
    assert (Hp3 : port s2 = Some p) by (subst s2; cbn; congruence).
    assert (Hs3 : _sending s2 = false) by (subst s2; cbn; congruence).
    rewrite (executePosition_open _ _ p Hc3 Hp3 Hs3).
    cbn [executePosition_failed cooldown emit set_sending set_timers trace].
    now rewrite <- !app_assoc. }
  intros Hsend. destruct (connected s); [|reflexivity].
  apply executePosition_closed. right. right. subst s2. cbn. congruence.
Qed.

Lemma resetAllServos_homes_then_sends_witness :
  let s := connect (Fulfilled 1%nat) (Fulfilled ()) (ReaderReady 0%nat)
             (KukaController true None 3) in
  exists s', resetAllServos (Fulfilled ()) s = Normal s'
             /\ servoAngles s' = [Num 90; Num 90; Num 90].
Proof.
  intros s.
  destruct (resetAllServos_homes_then_sends (Fulfilled ()) s eq_refl eq_refl)
    as (s1 & _ & _ & _ & H & H' & _).
  eexists. split; [exact H|]. rewrite H in H'. exact H'.
Defined.

(* ================================================================== *)
(** * Further properties *)

(** ** The cards of the page *)

Lemma nth1_lookup {A} (l : list A) (k : nat) :
  (1 <= k <= length l)%nat -> exists x, nth1 l k = Some x.
Proof.
  intros Hk. destruct k as [|i]; [lia|]. cbn [nth1].
  apply lookup_lt_is_Some_2. lia.
Qed.

Lemma nth1_None {A} (l : list A) (k : nat) :
  k = 0%nat \/ (length l < k)%nat -> nth1 l k = None.
Proof.
  intros [->|Hk]; [reflexivity|]. destruct k as [|i]; [reflexivity|].
  cbn [nth1]. apply lookup_ge_None_2. lia.
Qed.

(** X1.  In every reachable state the page has one card per joint, so the
    slider and input handlers of the joints 1..n, the only ones that
    [attachServoListeners] wires, always return; called for any other joint
    number they raise before touching anything.  [resetAllServos] always
    returns. *)
Theorem handlers_raise_only_without_card (hasSerial : bool)
    (log : option jsstring) (n : nat) (s : State) :
  reachable hasSerial log n s ->
  numServos s = n /\ length (cards s) = n
  /\ (forall k, (1 <= k <= n)%nat ->
        (exists s', updateFromSlider k s = Normal s')
        /\ (exists s', updateFromInput k s = Normal s'))
  /\ (forall k, k = 0%nat \/ (n < k)%nat ->
        updateFromSlider k s = Throw s /\ updateFromInput k s = Throw s)
  /\ (forall w, exists s', resetAllServos w s = Normal s').
Proof.
  intros Hr. pose proof (reachable_well_formed _ _ _ _ Hr) as Hwf.
  destruct (reachable_rendered _ _ _ _ Hr) as [Hn _].
  destruct Hwf as (_ & Ha & Hc & _).
  split; [exact Hn|]. split; [congruence|]. split.
  { intros k Hk. destruct (nth1_lookup (cards s) k) as [c Hcard]; [lia|].
    unfold updateFromSlider, updateFromInput. rewrite Hcard.
    split; [eexists; reflexivity|].
    destruct (in_range _); eexists; reflexivity. }
  split.
  { intros k Hk. unfold updateFromSlider, updateFromInput.
    rewrite (nth1_None (cards s) k) by (destruct Hk; [now left|right; lia]).
    now split. }
  intros w. destruct (reset_loop_home s Ha Hc) as (s1 & H1 & _).
  unfold resetAllServos. rewrite H1. eexists. reflexivity.
Qed.

Lemma handlers_raise_only_without_card_witness :
  let s := KukaController true None 5 in
  updateFromInput 6 s = Throw s /\ updateFromSlider 0 s = Throw s
  /\ exists s', updateFromSlider 5 s = Normal s'.
Proof.
  intros s.
  destruct (handlers_raise_only_without_card true None 5 s (reach_init _ _ _))
    as (_ & _ & H1 & H2 & _).
  split; [exact (proj2 (H2 6%nat ltac:(right; lia)))|].
  split; [exact (proj1 (H2 0%nat ltac:(now left)))|].
  exact (proj1 (H1 5%nat ltac:(lia))).
Defined.

(** X2.  In every reachable state each card carries the label of its joint,
    and its slider and its value label show exactly the stored angle of that
    joint: the slider holds the angle's decimal text (so it parses back to
    the angle) and the label that text followed by the degree sign.  The
    number input is not part of this: it keeps a text that was refused. *)
Theorem slider_and_label_show_stored_angle (hasSerial : bool)
    (log : option jsstring) (n : nat) (s : State) (k : nat) (c : Card) :
  reachable hasSerial log n s ->
  nth1 (cards s) k = Some c ->
  label c = label (createServoCard k)
  /\ slider_value c = to_string (array_get (servoAngles s) (k - 1))
  /\ parseInt (slider_value c) = array_get (servoAngles s) (k - 1)
  /\ value_text c = to_string (array_get (servoAngles s) (k - 1)) ++ [degree]
  /\ in_range (array_get (servoAngles s) (k - 1)) = true.
Proof.
  intros Hr Hc. pose proof (reachable_well_formed _ _ _ _ Hr) as Hwf.
  destruct (reachable_rendered _ _ _ _ Hr) as [_ Hs].
  destruct (card_bounds s k c Hwf Hc) as (_ & _ & Hi).
  apply nth1_Some in Hc as (Hk & Hl & _).
  destruct (Hs _ _ Hl) as (H1 & H2 & H3).
  replace (S (k - 1)) with k in H1 by lia.
  destruct Hwf as (Hv & Hlen & _).
  destruct (lookup_lt_is_Some_2 (servoAngles s) (k - 1)%nat ltac:(lia)) as [v Hv'].
  assert (Hval : valid_angle v).
  { unfold angles_valid in Hv. rewrite Forall_lookup in Hv. exact (Hv _ _ Hv'). }
  assert (Hg : array_get (servoAngles s) (k - 1) = v)
    by (unfold array_get; now rewrite Hv').
  destruct Hval as (z & -> & Hz).
  split; [exact H1|]. split; [exact H2|]. split.
  { rewrite H2, Hg. apply parseInt_number_to_string. }
  split; [exact H3|]. rewrite Hg. apply in_range_spec. now exists z.
Qed.

Lemma slider_and_label_show_stored_angle_witness :
  let s0 := KukaController true None 5 in
  let c := with_input (js "200") (createServoCard 2) in
  let s1 := set_cards (<[1%nat := c]> (cards s0)) s0 in
  updateFromInput 2 s1 = Normal s1
  /\ input_value c = js "200"
  /\ slider_value c = js "90"
  /\ parseInt (slider_value c) = array_get (servoAngles s1) 1.
Proof.
  intros s0 c s1.
  assert (Hr : reachable true None 5 s1).
  { apply (reach_step _ _ _ s0); [apply reach_init|].
    apply (step_input 2 (js "200") (createServoCard 2)); reflexivity. }
  destruct (slider_and_label_show_stored_angle true None 5 s1 2 c Hr eq_refl)
    as (_ & H2 & H3 & _).
  split; [reflexivity|]. split; [reflexivity|]. split; [exact H2|exact H3].
Defined.

(** ** Reset brings the page back *)

Lemma reset_loop_cards (m a : nat) (s : State) :
  length (servoAngles s) = length (cards s) ->
  (a + m <= length (cards s))%nat ->
  forall j, cards (final (reset_loop (seq (S a) m) s)) !! j
            = if decide (a <= j < a + m)%nat then home_card <$> cards s !! j
              else cards s !! j.
Proof.
  revert a s. induction m as [|m IH]; intros a s Hl Hm j.
  - cbn [seq reset_loop final]. case_decide; [lia|reflexivity].
  - cbn [seq reset_loop nth1].
    destruct (lookup_lt_is_Some_2 (cards s) a ltac:(lia)) as [c Hc].
    rewrite Hc. replace (S a - 1)%nat with a by lia.
    rewrite IH.
    + cbn [set_servoAngles set_cards cards].
      repeat case_decide; try lia.
      * rewrite list_lookup_insert_ne by lia. reflexivity.
      * assert (j = a) by lia. subst j.
        rewrite list_lookup_insert_eq by lia. now rewrite Hc.
      * rewrite list_lookup_insert_ne by lia. reflexivity.
    + cbn [set_servoAngles set_cards cards servoAngles].
      rewrite array_set_in_place by lia. now rewrite !length_insert.
    + cbn [set_servoAngles set_cards cards]. rewrite length_insert. lia.
Qed.

(** X3.  From any reachable state [resetAllServos] returns with the angles
    and the cards exactly as the constructor made them: every angle 90 and
    every slider, number input and value label back at 90, a refused text in
    an input included. *)
Theorem reset_restores_constructed_arm (hasSerial : bool)
    (log : option jsstring) (n : nat) (s : State) (w : Outcome unit) :
  reachable hasSerial log n s ->
  exists s',
    resetAllServos w s = Normal s'
    /\ servoAngles s' = servoAngles (KukaController hasSerial log n)
    /\ cards s' = cards (KukaController hasSerial log n)
    /\ numServos s' = n.
Proof.
  intros Hr. pose proof (reachable_well_formed _ _ _ _ Hr) as Hwf.
  destruct (reachable_rendered _ _ _ _ Hr) as [Hn Hs].
  destruct Hwf as (_ & Ha & Hc & Hb).
  destruct (reset_loop_home s Ha Hc) as (s1 & H1 & H2 & H3).
  pose proof (reset_loop_cards (numServos s) 0 s ltac:(congruence) ltac:(lia)) as Hcards.
  rewrite H1 in Hcards. cbn [final] in Hcards.
  assert (Ec : cards s1 = map createServoCard (seq 1 n)).
  { apply list_eq. intros j. rewrite Hcards.
    change (map createServoCard (seq 1 n)) with (createServoCard <$> seq 1 n).
    rewrite list_lookup_fmap. case_decide as Hj.
    - rewrite lookup_seq_lt by lia.
      destruct (lookup_lt_is_Some_2 (cards s) j ltac:(lia)) as [c Hcj].
      rewrite Hcj. cbn [fmap option_fmap option_map]. f_equal.
      destruct (Hs _ _ Hcj) as (Hlab & _).
      rewrite Forall_lookup in Hb. destruct (Hb _ _ Hcj) as [Hmin Hmax].
      destruct c as [lab mn mx sl inp txt]. cbn in Hlab, Hmin, Hmax.
      subst lab mn mx. reflexivity.
    - rewrite lookup_seq_ge by lia.
      rewrite (lookup_ge_None_2 (cards s)) by lia. reflexivity. }
  assert (Einit : servoAngles (KukaController hasSerial log n) = replicate n (Num 90)
                  /\ cards (KukaController hasSerial log n)
                     = map createServoCard (seq 1 n)).
  { unfold KukaController, checkWebSerialSupport. destruct hasSerial; now split. }
  destruct Einit as [Ea0 Ec0]. rewrite Ea0, Ec0.
  unfold resetAllServos. rewrite H1.
  set (s2 := emit _ (updateSystemState s1)).
  destruct H2 as (Hn1 & _).
  eexists. split; [reflexivity|].
  assert (E2 : servoAngles s2 = replicate n (Num 90) /\ cards s2 = map createServoCard (seq 1 n)
               /\ numServos s2 = n).
  { subst s2. cbn [updateSystemState emit servoAngles cards numServos].
    rewrite H3, Hn. repeat split; [exact Ec|congruence]. }
  destruct (connected s2); [|exact E2].
  destruct (executePosition_arm w s2) as (En & Ea & Ecd).
  rewrite En, Ea, Ecd. exact E2.
Qed.

Lemma reset_restores_constructed_arm_witness :
  let s0 := KukaController true None 5 in
  let s1 := set_cards (<[1%nat := with_input (js "200") (createServoCard 2)]> (cards s0)) s0 in
  exists s', resetAllServos (Fulfilled ()) s1 = Normal s' /\ cards s' = cards s0.
Proof.
  intros s0 s1.
  assert (Hr : reachable true None 5 s1).
  { apply (reach_step _ _ _ s0); [apply reach_init|].
    apply (step_input 2 (js "200") (createServoCard 2)); reflexivity. }
  destruct (reset_restores_constructed_arm true None 5 s1 (Fulfilled ()) Hr)
    as (s' & H1 & _ & H3 & _).
  exists s'. split; [exact H1|exact H3].
Defined.

(** ** Case analysis on the handlers *)

Ltac fields :=
  cbn [numServos port connected servoAngles lastCommand _sending _reader cards
       serialLog now writes timers trace emit set_port set_connected
       set_servoAngles set_lastCommand set_sending set_reader set_cards
       set_serialLog set_now set_writes set_timers final] in *.

Ltac handlers :=
  unfold toggleConnection, disconnect, connect_begin, connect_requested,
    connect_opened, connect_failed, startReading, timer_fired,
    cooldown_elapsed, executePosition, executePosition_settled,
    executePosition_failed, cooldown, updateSystemState in *.

Ltac cases :=
  repeat (fields;
          match goal with
          | |- context [match ?x with _ => _ end] => destruct x eqn:?
          end);
  fields.

(** ** The display is up to date *)

Lemma last_display_snoc (tr : list Effect) (e : Effect) :
  last_display (tr ++ [e])
  = match e with UiState _ _ _ _ => Some e | _ => last_display tr end.
Proof.
  induction tr as [|e0 tr IH]; cbn [app last_display].
  - destruct e; reflexivity.
  - rewrite IH. destruct e; try reflexivity.
Qed.

Lemma updateSystemState_display (s : State) :
  updateSystemState s = emit (display_of s) s.
Proof. reflexivity. Qed.

Ltac displays :=
  unfold displayed, display_of, positions in *; fields;
  repeat (rewrite last_display_snoc; cbv iota);
  fields;
  repeat match goal with
         | H : connected ?s = _ |- context [connected ?s] => rewrite H
         end;
  fields; try assumption; try reflexivity; try discriminate; try congruence.

Lemma updateSystemState_displayed (s : State) : displayed (updateSystemState s).
Proof. unfold updateSystemState. displays. Qed.

Lemma executePosition_displayed w s : displayed s -> displayed (executePosition w s).
Proof. intros H. unfold displayed, display_of, positions in *. handlers. cases; displays. Qed.

Lemma executePosition_settled_displayed o s :
  displayed s -> displayed (executePosition_settled o s).
Proof. intros H. unfold displayed, display_of, positions in *. handlers. cases; displays. Qed.

Lemma timer_fired_displayed s : displayed s -> displayed (timer_fired s).
Proof. intros H. unfold displayed, display_of, positions in *. handlers. cases; displays. Qed.

Lemma toggleConnection_displayed t s : displayed s -> displayed (toggleConnection t s).
Proof. intros H. unfold displayed, display_of, positions in *. handlers. cases; displays. Qed.

Lemma connect_requested_displayed o s : displayed s -> displayed (connect_requested o s).
Proof. intros H. unfold displayed, display_of, positions in *. handlers. cases; displays. Qed.

Lemma connect_opened_displayed o setup s :
  displayed s -> displayed (connect_opened o setup s).
Proof. intros H. unfold displayed, display_of, positions in *. handlers. cases; displays. Qed.

Lemma forward_lines_same clock lines k s :
  same_but_log s (forward_lines clock k lines s)
  /\ trace (forward_lines clock k lines s) = trace s.
Proof.
  revert k s. induction lines as [|l lines IH]; intros k s; [now repeat split|].
  cbn [forward_lines]. destruct (IH (S k) (appendSerialLog (clock k) l s)) as [H1 H2].
  rewrite H2. unfold same_but_log in *. unfold appendSerialLog in *.
  destruct (serialLog s); fields; now repeat split.
Qed.

Lemma read_settled_same o clock s :
  same_but_log s (read_settled o clock s).
Proof.
  destruct o as [[|c v]| |]; try (now repeat split).
  apply forward_lines_same.
Qed.

Lemma read_settled_displayed o clock s :
  displayed s -> displayed (read_settled o clock s).
Proof.
  intros H. destruct o as [[|c v]| |]; cbn [read_settled]; try exact H.
  - destruct (forward_lines_same clock (chunk_lines (c :: v)) 0 s)
      as [(_ & _ & Hc & Ha & Hl & _) Ht].
    unfold displayed, display_of, positions in *. now rewrite Ht, Hc, Ha, Hl.
  - displays.
Qed.

Lemma step_displayed s s' : displayed s -> step s s' -> displayed s'.
Proof.
  intros Hd Hstep. destruct Hstep as
    [servoNum v c s s' Hc Hv Hu | servoNum text c s s' Hc Hu | w s | o s | s
    | dt s | t s | o s | o setup s | o clock s | w s s' Hreset].
  - clear Hc. revert Hu. unfold updateFromSlider.
    destruct (nth1 _ _); [intros [= <-]|discriminate].
    apply updateSystemState_displayed.
  - clear Hc. revert Hu. unfold updateFromInput.
    destruct (nth1 _ _); [|discriminate].
    destruct (in_range _); intros [= <-];
      [apply updateSystemState_displayed|exact Hd].
  - now apply executePosition_displayed.
  - now apply executePosition_settled_displayed.
  - now apply timer_fired_displayed.
  - exact Hd.
  - now apply toggleConnection_displayed.
  - now apply connect_requested_displayed.
  - now apply connect_opened_displayed.
  - now apply read_settled_displayed.
  - unfold resetAllServos in Hreset.
    destruct (reset_loop _ s) as [s1|s1]; [|discriminate]. injection Hreset as <-.
    set (s2 := emit _ (updateSystemState s1)).
    assert (H2 : displayed s2) by (subst s2; unfold updateSystemState; displays).
    change (connected s2) with (connected s1).
    destruct (connected s1); [now apply executePosition_displayed|exact H2].
Qed.

(** X4.  The state display is never stale: in every reachable state the
    latest call of [updateSystemState] showed the current connection status,
    the current angles and the current last command. *)
Theorem display_is_never_stale (hasSerial : bool) (log : option jsstring)
    (n : nat) (s : State) :
  reachable hasSerial log n s ->
  last_display (trace s) = Some (display_of s).
Proof.
  induction 1 as [|s s' _ IH Hstep]; [|exact (step_displayed s s' IH Hstep)].
  unfold KukaController. apply updateSystemState_displayed.
Qed.

Lemma display_is_never_stale_witness :
  let s := connect (Fulfilled 1%nat) (Fulfilled ()) NotReadable
             (KukaController true None 2) in
  last_display (trace s)
  = Some (UiState (js "Active") (js "[90" ++ [degree] ++ js ", 90" ++ [degree] ++ js "]")
            (js "Connected") (js "Online")).
Proof.
  intros s.
  assert (Hr : reachable true None 2 s).
  { eapply reach_step; [|apply step_opened].
    eapply reach_step; [|apply step_requested].
    eapply reach_step; [apply reach_init|].
    exact (step_toggle {| cancel_throws := false; release_throws := false;
                          close_throws := false |} (KukaController true None 2)). }
  exact (display_is_never_stale true None 2 s Hr).
Defined.

(** ** Frames of the loops *)

Lemma reset_loop_frame idxs s : same_but_arm s (final (reset_loop idxs s)).
Proof.
  revert s. induction idxs as [|i idxs IH]; intros s; [now repeat split|].
  cbn [reset_loop]. destruct (nth1 (cards s) i); [|now repeat split].
  eapply same_but_arm_trans; [|apply IH]. now repeat split.
Qed.

Lemma forward_lines_no_log clock lines k s :
  serialLog s = None -> forward_lines clock k lines s = s.
Proof.
  revert k s. induction lines as [|l lines IH]; intros k s Hs; [reflexivity|].
  cbn [forward_lines]. unfold appendSerialLog. rewrite Hs. now apply IH.
Qed.

(** ** The cool-down timers *)

Lemma step_timers_bounded s s' : timers_bounded s -> step s s' -> timers_bounded s'.
Proof.
  intros Hb Hstep. unfold timers_bounded in *. destruct Hstep as
    [servoNum v c s s' Hc Hv Hu | servoNum text c s s' Hc Hu | w s | o s | s
    | dt s | t s | o s | o setup s | o clock s | w s s' Hreset].
  - clear Hc. revert Hu. unfold updateFromSlider.
    destruct (nth1 _ _); [intros [= <-]|discriminate]. exact Hb.
  - clear Hc. revert Hu. unfold updateFromInput.
    destruct (nth1 _ _); [|discriminate].
    destruct (in_range _); intros [= <-]; exact Hb.
  - handlers. cases; try assumption;
      (apply Forall_app; split; [assumption|repeat constructor]).
  - handlers. cases; try assumption;
      (apply Forall_app; split; [assumption|repeat constructor]).
  - unfold timer_fired. destruct (timers s) as [|due rest] eqn:E; [now rewrite E|].
    destruct (due <=? now s)%nat; [|now rewrite E].
    unfold cooldown_elapsed. fields. apply Forall_inv_tail in Hb.
    destruct (connected s); fields; exact Hb.
  - fields. eapply Forall_impl; [exact Hb|]. cbn. intros due Hd. lia.
  - handlers. cases; assumption.
  - handlers. cases; assumption.
  - handlers. cases; assumption.
  - destruct (read_settled_same o clock s) as (_&_&_&_&_&_&_&_&Hn&_&Ht).
    now rewrite Hn, Ht.
  - unfold resetAllServos in Hreset.
    pose proof (reset_loop_frame (seq 1 (numServos s)) s) as Hf.
    destruct (reset_loop _ s) as [s1|s1]; [|discriminate]. injection Hreset as <-.
    cbn [final] in Hf. destruct Hf as (_&_&_&_&_&_&_&Hn&_&Ht&_).
    set (s2 := emit _ (updateSystemState s1)).
    assert (H2 : Forall (fun due => (due <= now s2 + 300)%nat) (timers s2)).
    { subst s2. unfold updateSystemState. fields. now rewrite Hn, Ht. }
    change (connected s2) with (connected s1). destruct (connected s1); [|exact H2].
    clearbody s2. clear - H2. handlers. cases; try assumption;
      (apply Forall_app; split; [assumption|repeat constructor]).
Qed.

(** X5.  In every reachable state every pending cool-down timer is due no
    more than 300 ms after the present. *)
Theorem cooldown_is_due_within_300ms (hasSerial : bool) (log : option jsstring)
    (n : nat) (s : State) :
  reachable hasSerial log n s ->
  Forall (fun due => (due <= now s + 300)%nat) (timers s).
Proof.
  induction 1 as [|s s' _ IH Hstep]; [|exact (step_timers_bounded s s' IH Hstep)].
  unfold KukaController, checkWebSerialSupport.
  destruct hasSerial; unfold updateSystemState, renderServoCards; fields; constructor.
Qed.

Lemma cooldown_is_due_within_300ms_witness :
  let s0 := connect (Fulfilled 1%nat) (Fulfilled ()) NotReadable
              (KukaController true None 2) in
  let s1 := set_now 40 (executePosition (Failed (js "locked")) s0) in
  timers s1 = [300%nat] /\ Forall (fun due => (due <= now s1 + 300)%nat) (timers s1).
Proof.
  intros s0 s1.
  assert (Hr : reachable true None 2 s1).
  { eapply reach_step; [|exact (step_time 40 (executePosition (Failed (js "locked")) s0))].
    eapply reach_step; [|apply step_send].
    eapply reach_step; [|apply step_opened].
    eapply reach_step; [|apply step_requested].
    eapply reach_step; [apply reach_init|].
    exact (step_toggle {| cancel_throws := false; release_throws := false;
                          close_throws := false |} (KukaController true None 2)). }
  split; [reflexivity|].
  exact (cooldown_is_due_within_300ms true None 2 s1 Hr).
Defined.

(** ** The serial log *)

Lemma log_extends_same s s' : serialLog s' = serialLog s -> log_extends s s'.
Proof.
  intros H. unfold log_extends. rewrite H.
  destruct (serialLog s) as [pre|]; [|reflexivity].
  exists []. now rewrite app_nil_r.
Qed.

Lemma read_settled_log_extends o clock s : log_extends s (read_settled o clock s).
Proof.
  destruct o as [[|c v]| |]; try (now apply log_extends_same).
  cbn [read_settled]. unfold log_extends.
  rewrite (forward_lines_log clock (chunk_lines (c :: v)) 0 s).
  destruct (serialLog s) as [pre|]; [|reflexivity].
  eexists. reflexivity.
Qed.

(** X6.  The serial log is append-only: no handler ever clears or rewrites
    it.  Across any step of the event loop the log, when the page has one,
    keeps its old content as a prefix, and a page without a log element
    never gets one. *)
Theorem serial_log_is_append_only (s s' : State) :
  step s s' ->
  match serialLog s with
  | None => serialLog s' = None
  | Some pre => exists more, serialLog s' = Some (pre ++ more)
  end.
Proof.
  intros Hstep. change (log_extends s s'). destruct Hstep as
    [servoNum v c s s' Hc Hv Hu | servoNum text c s s' Hc Hu | w s | o s | s
    | dt s | t s | o s | o setup s | o clock s | w s s' Hreset].
  - clear Hc. revert Hu. unfold updateFromSlider.
    destruct (nth1 _ _); [intros [= <-]|discriminate]. now apply log_extends_same.
  - clear Hc. revert Hu. unfold updateFromInput.
    destruct (nth1 _ _); [|discriminate].
    destruct (in_range _); intros [= <-]; now apply log_extends_same.
  - apply log_extends_same. handlers. cases; reflexivity.
  - apply log_extends_same. handlers. cases; reflexivity.
  - apply log_extends_same. handlers. cases; reflexivity.
  - now apply log_extends_same.
  - apply log_extends_same. handlers. cases; reflexivity.
  - apply log_extends_same. handlers. cases; reflexivity.
  - apply log_extends_same. handlers. cases; reflexivity.
  - apply read_settled_log_extends.
  - apply log_extends_same. unfold resetAllServos in Hreset.
    pose proof (reset_loop_frame (seq 1 (numServos s)) s) as Hf.
    destruct (reset_loop _ s) as [s1|s1]; [|discriminate]. injection Hreset as <-.
    cbn [final] in Hf. destruct Hf as (_&_&_&_&_&_&Hl&_).
    rewrite <- Hl. set (s2 := emit _ (updateSystemState s1)).
    change (serialLog s1) with (serialLog s2).
    change (connected s2) with (connected s1). destruct (connected s1); [|reflexivity].
    clearbody s2. handlers. cases; reflexivity.
Qed.

Lemma serial_log_is_append_only_witness :
  let s := KukaController true (Some (js "boot" ++ [LF])) 2 in
  exists more,
    serialLog (read_settled (Chunk (js "OK" ++ [LF])) (fun _ => js "9:00") s)
    = Some ((js "boot" ++ [LF]) ++ more).
Proof.
  intros s.
  exact (serial_log_is_append_only s _
           (step_read (Chunk (js "OK" ++ [LF])) (fun _ => js "9:00") s)).
Defined.

(** X7.  Whatever [reader.read()] settles with, the read loop changes
    nothing but the serial log and the console: connection flag, port,
    angles, last command, busy flag and timers stay, and no alert is ever
    raised.  A read error is one console line and nothing else; the end of
    the stream changes nothing; a chunk changes only the log, and on a page
    without a log element it is dropped whole. *)
Theorem read_loop_touches_only_the_log (o : ReadResult)
    (clock : nat -> jsstring) (s : State) :
  let s' := read_settled o clock s in
  same_but_log s s'
  /\ count_effects is_alert (trace s') = count_effects is_alert (trace s)
  /\ (o = Done -> s' = s)
  /\ (forall message, o = ReadFails message ->
        serialLog s' = serialLog s
        /\ trace s' = trace s ++ [ConsoleError (js "Read loop error:") message])
  /\ (forall value, o = Chunk value ->
        trace s' = trace s /\ (serialLog s = None -> s' = s)).
Proof.
  cbv zeta. split; [apply read_settled_same|]. split.
  { destruct o as [[|c v]| |]; try reflexivity.
    - cbn [read_settled].
      now rewrite (proj2 (forward_lines_same clock (chunk_lines (c :: v)) 0 s)).
    - cbn [read_settled emit trace]. rewrite count_effects_app. cbn. lia. }
  split; [now intros ->|]. split.
  { intros message ->. now split. }
  intros value ->. destruct value as [|c v]; [now split|]. cbn [read_settled].
  split; [apply forward_lines_same|]. apply forward_lines_no_log.
Qed.

(** ** Commands and lines *)

Lemma plain_literal (x : jsstring) :
  forallb (fun c => negb (c =? LF) && negb (c =? CR)) x = true -> Forall plain x.
Proof.
  induction x as [|c x IH]; cbn [forallb]; [constructor|].
  intros H. apply andb_true_iff in H as [Hc Hx]. constructor; [|now apply IH].
  apply andb_true_iff in Hc as [H1 H2].
  apply negb_true_iff in H1, H2. apply N.eqb_neq in H1, H2. now split.
Qed.

Lemma plain_digits (d : Decimal.uint) : Forall plain (js (NilEmpty.string_of_uint d)).
Proof.
  induction d; cbn [NilEmpty.string_of_uint]; [constructor | ..];
    rewrite js_cons; (constructor; [split; discriminate|exact IHd]).
Qed.

Lemma plain_number (z : Z) : Forall plain (number_to_string z).
Proof.
  unfold number_to_string. destruct z as [|p|p];
    cbn [Z.to_int NilZero.string_of_int].
  - now apply plain_literal.
  - unfold NilZero.string_of_uint.
    destruct (Pos.to_uint p) eqn:E; [now apply plain_literal | rewrite <- E ..];
      try (destruct (Pos.to_uint p); [now apply plain_literal | apply plain_digits ..]).
  - rewrite js_cons. constructor; [split; discriminate|].
    unfold NilZero.string_of_uint.
    destruct (Pos.to_uint p) eqn:E; [now apply plain_literal | rewrite <- E ..];
      try (destruct (Pos.to_uint p); [now apply plain_literal | apply plain_digits ..]).
Qed.

Lemma plain_to_string (v : value) : Forall plain (to_string v).
Proof.
  destruct v as [| |z]; [now apply plain_literal..|apply plain_number].
Qed.

Lemma plain_piece (a : list value) (i : nat) : Forall plain (piece a i).
Proof.
  unfold piece. repeat (apply Forall_app; split).
  - now apply plain_literal.
  - apply plain_number.
  - now apply plain_literal.
  - apply plain_to_string.
Qed.

Lemma plain_join (sep : jsstring) (ps : list jsstring) :
  Forall plain sep -> Forall (Forall plain) ps -> Forall plain (join sep ps).
Proof.
  intros Hsep. induction 1 as [|p ps Hp Hps IH]; [constructor|].
  destruct ps as [|q ps]; [exact Hp|].
  cbn [join]. repeat (apply Forall_app; split); assumption.
Qed.

Lemma plain_command_loop (s : State) : Forall plain (command_loop s).
Proof.
  rewrite command_loop_join. apply plain_join; [now apply plain_literal|].
  apply List.Forall_forall. intros p Hp. apply in_map_iff in Hp as (i & <- & _).
  apply plain_piece.
Qed.

Lemma split_lines_line (x : jsstring) :
  Forall plain x -> split_lines (x ++ [LF]) = [x; []].
Proof.
  induction 1 as [|c x [Hlf Hcr] Hx IH]; [reflexivity|].
  cbn [app split_lines]. apply N.eqb_neq in Hlf, Hcr. rewrite Hlf, Hcr.
  cbn [andb]. rewrite IH. destruct (x ++ [LF]) eqn:E; [|reflexivity].
  now destruct x.
Qed.

Lemma split_lines_plain (x : jsstring) : Forall plain x -> split_lines x = [x].
Proof.
  induction 1 as [|c x [Hlf Hcr] Hx IH]; [reflexivity|].
  cbn [split_lines]. apply N.eqb_neq in Hlf, Hcr. rewrite Hlf, Hcr.
  cbn [andb]. rewrite IH. now destruct x.
Qed.

Lemma starts_tight_not_blank (x : jsstring) : starts_tight x -> ~ blank x.
Proof.
  intros (c & r & -> & Hc) Hb. apply Forall_inv in Hb. congruence.
Qed.

Lemma chunk_lines_filter (value : jsstring) :
  chunk_lines value = filter (fun l => ~ blank l) (split_lines value).
Proof. unfold chunk_lines. apply list_filter_iff. intros l. apply trim_length_blank. Qed.

Lemma command_loop_empty (s : State) : numServos s = 0%nat -> command_loop s = [].
Proof. intros H. unfold command_loop. now rewrite H. Qed.

Lemma command_loop_tight (s : State) :
  numServos s <> 0%nat -> starts_tight (command_loop s).
Proof.
  intros Hn. rewrite command_loop_join.
  destruct (numServos s) as [|n]; [congruence|].
  apply join_tight; [cbn [seq map]; discriminate|].
  apply List.Forall_forall. intros p Hp. apply in_map_iff in Hp as (i & <- & _).
  apply piece_tight.
Qed.

(** X8.  Every command is exactly one line on the wire: the text built by
    [executePosition] holds no line feed and no carriage return before its
    final line feed, whatever the angle vector holds.  So if the device
    echoes a command back in one chunk, the read loop logs exactly one line
    for it, equal to what [lastCommand] shows for that command.  With no
    joints the command is the bare line feed and an echo logs nothing. *)
Theorem command_is_one_line (s : State) :
  Forall (fun c => c <> LF /\ c <> CR) (command_loop s)
  /\ split_lines (build_command s) = [command_loop s; []]
  /\ chunk_lines (build_command s)
     = (if decide (numServos s = 0%nat) then [] else [trim (build_command s)])
  /\ (numServos s = 0%nat <-> build_command s = [LF]).
Proof.
  pose proof (plain_command_loop s) as Hp.
  assert (Hs : split_lines (build_command s) = [command_loop s; []])
    by (now apply split_lines_line).
  split; [exact Hp|]. split; [exact Hs|]. split.
  - rewrite chunk_lines_filter, Hs, trim_build_command. case_decide as Hn.
    + rewrite (command_loop_empty s Hn). reflexivity.
    + rewrite filter_cons_True by (apply starts_tight_not_blank, command_loop_tight, Hn).
      rewrite filter_cons_False; [reflexivity|]. intros H. apply H. constructor.
  - split.
    + intros Hn. unfold build_command. now rewrite (command_loop_empty s Hn).
    + intros H. destruct (decide (numServos s = 0%nat)) as [Hn|Hn]; [exact Hn|].
      destruct (command_loop_tight s Hn) as (c & r & E & _).
      unfold build_command in H. rewrite E in H. destruct r; discriminate.
Qed.

(** ** Splitting *)

Lemma split_lines_cons (c : N) (rest : jsstring) :
  split_lines (c :: rest)
  = if c =? LF then [] :: split_lines rest
    else match rest with
         | d :: rest' =>
             if (c =? CR) && (d =? LF) then [] :: split_lines rest'
             else match split_lines rest with
                  | l :: ls => (c :: l) :: ls
                  | [] => [[c]]
                  end
         | [] => [[c]]
         end.
Proof. reflexivity. Qed.

Lemma split_lines_facts (n : nat) :
  forall v, (length v <= n)%nat ->
    split_lines v <> []
    /\ Forall (fun l => LF ∉ l) (split_lines v)
    /\ length (split_lines v) = S (count_lf v).
Proof.
  induction n as [|n IH]; intros v Hv.
  - destruct v; [|cbn in Hv; lia]. cbn. repeat split; [discriminate|].
    repeat constructor. apply not_elem_of_nil.
  - destruct v as [|c rest].
    { cbn. repeat split; [discriminate|]. repeat constructor. apply not_elem_of_nil. }
    cbn [length] in Hv. destruct (IH rest ltac:(lia)) as (Hne & Hf & Hl).
    rewrite split_lines_cons. unfold count_lf in *. rewrite filter_cons.
    destruct (N.eqb_spec c LF) as [->|Hc].
    + rewrite decide_True by reflexivity. cbn [length].
      repeat split; [discriminate| |now rewrite Hl].
      constructor; [apply not_elem_of_nil|exact Hf].
    + rewrite decide_False by exact Hc.
      destruct rest as [|d rest']; [cbn; repeat split; [discriminate|]|].
      { repeat constructor. intros H. apply list_elem_of_singleton in H. congruence. }
      destruct ((c =? CR) && (d =? LF)) eqn:Hcd.
      * apply andb_true_iff in Hcd as [_ Hd]. apply N.eqb_eq in Hd. subst d.
        cbn [length] in Hv. destruct (IH rest' ltac:(lia)) as (Hne' & Hf' & Hl').
        rewrite filter_cons, decide_True by reflexivity. cbn [length].
        repeat split; [discriminate| |now rewrite Hl'].
        constructor; [apply not_elem_of_nil|exact Hf'].
      * destruct (split_lines (d :: rest')) as [|l ls]; [congruence|].
        cbn [length] in *. repeat split; [discriminate| |exact Hl].
        apply Forall_cons in Hf as [Hl0 Hls]. constructor; [|exact Hls].
        intros H. apply elem_of_cons in H as [H|H]; [congruence|contradiction].
Qed.

(** X9.  However a chunk is cut, [split(/\r?\n/)] gives one line more than
    the chunk has line feeds, and no line holds a line feed; so every entry
    the read loop adds to the log is a single line of the log. *)
Theorem read_loop_lines_hold_no_line_feed (value : jsstring) :
  length (split_lines value) = S (count_lf value)
  /\ Forall (fun l => LF ∉ l) (split_lines value)
  /\ Forall (fun l => LF ∉ l) (chunk_lines value)
  /\ (length (chunk_lines value) <= S (count_lf value))%nat.
Proof.
  destruct (split_lines_facts (length value) value (le_n _)) as (_ & Hf & Hl).
  split; [exact Hl|]. split; [exact Hf|].
  rewrite chunk_lines_filter. split.
  - rewrite Forall_forall in Hf |- *. intros l Hin.
    apply list_elem_of_filter in Hin as [_ Hin]. now apply Hf.
  - rewrite <- Hl. apply length_filter.
Qed.

(** X10.  The read loop keeps no buffer between chunks: a line that arrives
    cut in two is logged as two entries, where the same text in one chunk is
    logged as one.  (Here [x] and [y] hold no line break and do not start
    with white space.) *)
Theorem read_loop_does_not_join_chunks (x y : jsstring) :
  Forall plain x -> Forall plain y -> starts_tight x -> starts_tight y ->
  chunk_lines x = [x]
  /\ chunk_lines (y ++ [LF]) = [y]
  /\ chunk_lines (x ++ y ++ [LF]) = [x ++ y]
  /\ chunk_lines x ++ chunk_lines (y ++ [LF]) <> chunk_lines (x ++ y ++ [LF]).
Proof.
  intros Hx Hy Sx Sy.
  assert (E1 : chunk_lines x = [x]).
  { rewrite chunk_lines_filter, split_lines_plain by exact Hx.
    now rewrite filter_cons_True by now apply starts_tight_not_blank. }
  assert (L : forall z, Forall plain z -> starts_tight z ->
                        chunk_lines (z ++ [LF]) = [z]).
  { intros z Hz Sz. rewrite chunk_lines_filter, split_lines_line by exact Hz.
    rewrite filter_cons_True by now apply starts_tight_not_blank.
    rewrite filter_cons_False; [reflexivity|]. intros H. apply H. constructor. }
  assert (E3 : chunk_lines (x ++ y ++ [LF]) = [x ++ y]).
  { rewrite app_assoc. apply L; [now apply Forall_app|now apply starts_tight_app]. }
  split; [exact E1|]. split; [now apply L|]. split; [exact E3|].
  rewrite E1, (L y Hy Sy), E3. discriminate.
Qed.

Lemma read_loop_does_not_join_chunks_witness :
  chunk_lines (js "HEL") ++ chunk_lines (js "LO" ++ [LF]) = [js "HEL"; js "LO"]
  /\ chunk_lines (js "HEL" ++ js "LO" ++ [LF]) = [js "HELLO"].
Proof.
  assert (P : forall t, forallb (fun c => negb (c =? LF) && negb (c =? CR)) t = true ->
                        Forall plain t) by exact plain_literal.
  destruct (read_loop_does_not_join_chunks (js "HEL") (js "LO")
              (P (js "HEL") eq_refl) (P (js "LO") eq_refl)
              (ex_intro _ 72 (ex_intro _ (js "EL") (conj eq_refl eq_refl)))
              (ex_intro _ 76 (ex_intro _ (js "O") (conj eq_refl eq_refl))))
    as (H1 & H2 & H3 & _).
  split; [now rewrite H1, H2|exact H3].
Defined.

(** ** [parseInt] stops at a period *)

Lemma parseInt_tests (s : jsstring) :
  parseInt s
  = let s1 := trimStart s in
    let '(sign, s2) :=
      match s1 with
      | c :: r => if c =? 45 then ((-1)%Z, r)
                  else if c =? 43 then (1%Z, r) else (1%Z, s1)
      | [] => (1%Z, s1)
      end in
    let '(radix, s3) :=
      match s2 with
      | c :: x :: r =>
          if (c =? 48) && ((x =? 120) || (x =? 88)) then (16, r) else (10, s2)
      | _ => (10, s2)
      end in
    match parse_digits radix None s3 with
    | None => NaN
    | Some n => Num (sign * Z.of_N n)
    end.
Proof.
  unfold parseInt. cbv zeta.
  assert (E1 : forall s1 : jsstring,
    match s1 with
    | 45 :: r => ((-1)%Z, r)
    | 43 :: r => (1%Z, r)
    | _ => (1%Z, s1)
    end
    = match s1 with
      | c :: r => if c =? 45 then ((-1)%Z, r)
                  else if c =? 43 then (1%Z, r) else (1%Z, s1)
      | [] => (1%Z, s1)
      end).
  { intros [|c r]; [reflexivity|]. destruct c as [|p]; [reflexivity|].
    do 6 (destruct p as [p|p|]; try reflexivity). }
  assert (E2 : forall s2 : jsstring,
    match s2 with
    | 48 :: x :: r => if (x =? 120) || (x =? 88) then (16, r) else (10, s2)
    | _ => (10, s2)
    end
    = match s2 with
      | c :: x :: r =>
          if (c =? 48) && ((x =? 120) || (x =? 88)) then (16, r) else (10, s2)
      | _ => (10, s2)
      end).
  { intros [|c [|x r]]; try reflexivity.
    - destruct c as [|p]; [reflexivity|].
      do 6 (destruct p as [p|p|]; try reflexivity).
    - destruct c as [|p]; [reflexivity|].
      do 6 (destruct p as [p|p|]; try reflexivity). }
  rewrite E1. destruct (match trimStart s with [] => _ | c :: r => _ end) as [sign s2].
  now rewrite E2.
Qed.

Lemma trimStart_period (x rest : jsstring) :
  trimStart (x ++ 46 :: rest) = trimStart x ++ 46 :: rest.
Proof.
  induction x as [|c x IH]; [reflexivity|].
  cbn [app trimStart]. now destruct (is_white_space c).
Qed.

Lemma parse_digits_stop (radix : N) (c : N) (rest x : jsstring) (acc : option N) :
  digit_value radix c = None ->
  parse_digits radix acc (x ++ c :: rest) = parse_digits radix acc x.
Proof.
  intros Hc. revert acc. induction x as [|d x IH]; intros acc.
  - cbn [app parse_digits]. now rewrite Hc.
  - cbn [app parse_digits]. destruct (digit_value radix d); [apply IH|reflexivity].
Qed.

Lemma digit_value_period (radix : N) : digit_value radix 46 = None.
Proof. reflexivity. Qed.

(** Whatever stands before it, [parseInt] reads nothing from the first
    period on. *)
Lemma parseInt_period (x rest : jsstring) :
  parseInt (x ++ 46 :: rest) = parseInt x.
Proof.
  rewrite !parseInt_tests. cbv zeta. rewrite trimStart_period.
  assert (P : forall (sign : Z) (s2 : jsstring),
    (let '(radix, s3) :=
       match s2 ++ 46 :: rest with
       | c :: x :: r =>
           if (c =? 48) && ((x =? 120) || (x =? 88)) then (16, r)
           else (10, s2 ++ 46 :: rest)
       | _ => (10, s2 ++ 46 :: rest)
       end in
     match parse_digits radix None s3 with
     | None => NaN
     | Some n => Num (sign * Z.of_N n)
     end)
    = (let '(radix, s3) :=
         match s2 with
         | c :: x :: r =>
             if (c =? 48) && ((x =? 120) || (x =? 88)) then (16, r) else (10, s2)
         | _ => (10, s2)
         end in
       match parse_digits radix None s3 with
       | None => NaN
       | Some n => Num (sign * Z.of_N n)
       end)).
  { intros sign [|c0 [|x0 r0]].
    - cbn [app]. destruct rest; reflexivity.
    - cbn [app]. change (46 =? 120) with false. change (46 =? 88) with false.
      rewrite andb_false_r. cbn [orb].
      change (parse_digits 10 None (c0 :: 46 :: rest))
        with (parse_digits 10 None ([c0] ++ 46 :: rest)).
      now rewrite parse_digits_stop.
    - cbn [app]. destruct ((c0 =? 48) && ((x0 =? 120) || (x0 =? 88))).
      + now rewrite parse_digits_stop.
      + change (c0 :: x0 :: r0 ++ 46 :: rest) with ((c0 :: x0 :: r0) ++ 46 :: rest).
        now rewrite parse_digits_stop. }
  destruct (trimStart x) as [|c r].
  - cbn [app]. change (46 =? 45) with false. change (46 =? 43) with false.
    cbv iota. apply (P 1%Z []).
  - cbn [app]. destruct (c =? 45); [apply P|]. destruct (c =? 43); [apply P|].
    apply (P 1%Z (c :: r)).
Qed.

(** X11.  The numeric input takes a decimal fraction by its integer part:
    the text z.f with 0 <= z <= 180 is accepted and z is stored, so 180.9 is
    taken as 180, and it is refused for any other z.  When it is accepted
    the slider and the label show z, while the input keeps the text as it
    was typed. *)
Theorem numeric_input_truncates_fraction (servoNum : nat) (s : State)
    (c : Card) (z : Z) (frac : jsstring) :
  nth1 (cards s) servoNum = Some c ->
  input_value c = number_to_string z ++ [46] ++ frac ->
  ((0 <= z <= 180)%Z ->
     exists s' c',
       updateFromInput servoNum s = Normal s'
       /\ array_get (servoAngles s') (servoNum - 1) = Num z
       /\ nth1 (cards s') servoNum = Some c'
       /\ slider_value c' = number_to_string z
       /\ value_text c' = number_to_string z ++ [degree]
       /\ input_value c' = number_to_string z ++ [46] ++ frac)
  /\ (~ (0 <= z <= 180)%Z -> updateFromInput servoNum s = Normal s).
Proof.
  intros Hc Hin.
  assert (Hp : parseInt (input_value c) = Num z).
  { rewrite Hin. cbn [app]. rewrite parseInt_period. apply parseInt_number_to_string. }
  unfold updateFromInput. rewrite Hc, Hp. split.
  - intros Hz. rewrite (proj2 (in_range_spec (Num z))) by now exists z.
    apply nth1_Some in Hc as (Hk & Hl & Hlen).
    eexists _, _. split; [reflexivity|].
    cbn [updateSystemState emit set_cards set_servoAngles servoAngles cards].
    split; [apply array_get_set|]. split.
    { destruct servoNum as [|i]; [lia|]. cbn [nth1].
      replace (S i - 1)%nat with i by lia. apply list_lookup_insert_eq. lia. }
    split; [reflexivity|]. split; [reflexivity|]. exact Hin.
  - intros Hz. destruct (in_range (Num z)) eqn:Hr; [|reflexivity].
    apply in_range_spec in Hr as (z' & [= <-] & Hz'). contradiction.
Qed.

Lemma numeric_input_truncates_fraction_witness :
  let s0 := KukaController true None 5 in
  let c := with_input (js "180.9") (createServoCard 2) in
  let s := set_cards (<[1%nat := c]> (cards s0)) s0 in
  exists s', updateFromInput 2 s = Normal s'
             /\ array_get (servoAngles s') 1 = Num 180.
Proof.
  intros s0 c s.
  assert (Hc : nth1 (cards s) 2 = Some c) by (vm_compute; reflexivity).
  assert (Hin : input_value c = number_to_string 180 ++ [46] ++ js "9")
    by (vm_compute; reflexivity).
  destruct (proj1 (numeric_input_truncates_fraction 2 s c 180 (js "9") Hc Hin)
              ltac:(lia))
    as (s' & c' & H1 & H2 & _).
  exists s'. split; [exact H1|exact H2].
Defined.

(** ** Connecting without a reader *)

Lemma count_effects_snoc (p : Effect -> bool) (tr : list Effect) (e : Effect) :
  count_effects p (tr ++ [e])
  = (count_effects p tr + if p e then 1 else 0)%nat.
Proof.
  rewrite count_effects_app. unfold count_effects at 2. cbn [List.filter].
  now destruct (p e).
Qed.

Lemma build_command_same (s s' : State) :
  numServos s' = numServos s -> servoAngles s' = servoAngles s ->
  build_command s' = build_command s.
Proof.
  intros Hn Ha. unfold build_command, command_loop. now rewrite Hn, Ha.
Qed.

(** X12.  A connect whose port opens ends connected whether or not the
    read side could be set up.  When the port is not readable, or setting
    the reader up raises, no alert is shown (a failed setup is one console
    line), the reader field keeps what it held, and sending works; a reader
    is started at most once per connect. *)
Theorem connect_does_not_depend_on_reading (p : Port) (setup : ReadSetup)
    (s : State) :
  let s' := connect (Fulfilled p) (Fulfilled ()) setup s in
  connected s' = true /\ port s' = Some p
  /\ same_arm s s' /\ same_gate s s'
  /\ count_effects is_alert (trace s') = count_effects is_alert (trace s)
  /\ _reader s' = match setup with ReaderReady r => Some r | _ => _reader s end
  /\ count_effects is_start_read (trace s')
     = (count_effects is_start_read (trace s)
        + match setup with ReaderReady _ => 1 | _ => 0 end)%nat
  /\ (_sending s = false ->
      trace (executePosition (Fulfilled ()) s')
      = trace s' ++ [UiSendButton true; Write p (build_command s)]).
Proof.
  cbv zeta. set (s' := connect (Fulfilled p) (Fulfilled ()) setup s).
  assert (Hc : connected s' = true)
    by (subst s'; unfold connect; handlers; destruct setup; reflexivity).
  assert (Hp : port s' = Some p)
    by (subst s'; unfold connect; handlers; destruct setup; reflexivity).
  assert (Ha : same_arm s s')
    by (subst s'; unfold connect; handlers; destruct setup; now repeat split).
  assert (Hg : same_gate s s')
    by (subst s'; unfold connect; handlers; destruct setup; now repeat split).
  assert (Hal : count_effects is_alert (trace s') = count_effects is_alert (trace s)).
  { subst s'. unfold connect. handlers. destruct setup; fields;
      rewrite !count_effects_snoc; cbn [is_alert]; lia. }
  assert (Hrd : _reader s' = match setup with ReaderReady r => Some r | _ => _reader s end)
    by (subst s'; unfold connect; handlers; destruct setup; reflexivity).
  assert (Hsr : count_effects is_start_read (trace s')
     = (count_effects is_start_read (trace s)
        + match setup with ReaderReady _ => 1 | _ => 0 end)%nat).
  { subst s'. unfold connect. handlers. destruct setup; fields;
      rewrite !count_effects_snoc; cbn [is_start_read]; lia. }
  clearbody s'.
  split; [exact Hc|]. split; [exact Hp|]. split; [exact Ha|]. split; [exact Hg|].
  split; [exact Hal|]. split; [exact Hrd|]. split; [exact Hsr|].
  intros Hs. destruct Hg as (Hs' & _). destruct Ha as (Hn & Hang & _).
  rewrite (executePosition_open _ _ p Hc Hp) by congruence.
  cbn [emit set_writes set_sending trace]. rewrite <- app_assoc.
  now rewrite (build_command_same s s' Hn Hang).
Qed.

(** ** A write that outlives its connection *)

(** X13.  A write in flight is not cancelled by [disconnect].  If it then
    settles well, the send path still records it: the last command, set to
    "Disconnected" by the disconnect, becomes the command again, and the
    state display shows that command on a controller that is not connected
    and has no port. *)
Theorem late_write_replaces_disconnected (t : Teardown) (s : State)
    (command : jsstring) (rest : list jsstring) :
  writes s = command :: rest ->
  let s1 := disconnect t s in
  let s2 := executePosition_settled (Fulfilled ()) s1 in
  lastCommand s1 = js "Disconnected" /\ writes s1 = command :: rest
  /\ connected s2 = false /\ port s2 = None
  /\ lastCommand s2 = trim command
  /\ last_display (trace s2)
     = Some (UiState (js "Standby") (js "[" ++ positions s ++ js "]")
               (trim command) (js "Offline"))
  /\ writes s2 = rest /\ timers s2 = timers s ++ [(now s + 300)%nat].
Proof.
  intros Hw. cbv zeta. set (s1 := disconnect t s).
  assert (Hw1 : writes s1 = command :: rest).
  { destruct (disconnect_gate t s) as (_ & E & _). subst s1. congruence. }
  assert (Ht1 : timers s1 = timers s) by apply disconnect_gate.
  assert (Ha1 : servoAngles s1 = servoAngles s) by apply disconnect_arm.
  assert (Hp1 : port s1 = None).
  { subst s1. unfold disconnect. destruct (port s) eqn:Hp; [|exact Hp].
    destruct (_reader s), (cancel_throws t); reflexivity. }
  assert (Hc1 : connected s1 = false) by reflexivity.
  assert (Hl1 : lastCommand s1 = js "Disconnected") by reflexivity.
  assert (Hn1 : now s1 = now s).
  { subst s1. unfold disconnect.
    destruct (port s), (_reader s), (cancel_throws t); reflexivity. }
  clearbody s1.
  split; [exact Hl1|]. split; [exact Hw1|].
  unfold executePosition_settled. rewrite Hw1.
  unfold cooldown, updateSystemState, positions. fields.
  rewrite !last_display_snoc. cbv iota. rewrite Hc1, Hp1, Ha1, Ht1, Hn1.
  now repeat split.
Qed.

Lemma late_write_replaces_disconnected_witness :
  let s0 := connect (Fulfilled 1%nat) (Fulfilled ()) NotReadable
              (KukaController true None 2) in
  let s := executePosition (Fulfilled ()) s0 in
  let t := {| cancel_throws := false; release_throws := false; close_throws := false |} in
  lastCommand (executePosition_settled (Fulfilled ()) (disconnect t s))
  = trim (js "S1 90,S2 90" ++ [LF]).
Proof.
  intros s0 s t.
  exact (proj1 (proj2 (proj2 (proj2 (proj2
    (late_write_replaces_disconnected t s (js "S1 90,S2 90" ++ [LF]) [] eq_refl)))))).
Defined.

(** ** The command determines the angles *)

Lemma numeric_digit (c : N) : (48 <=? c) && (c <=? 57) = true -> numeric c.
Proof.
  intros H. apply andb_true_iff in H as [H1 H2].
  right. split; now apply N.leb_le.
Qed.

Lemma numeric_digits (d : Decimal.uint) : Forall numeric (js (NilEmpty.string_of_uint d)).
Proof.
  induction d; cbn [NilEmpty.string_of_uint]; [constructor | ..];
    rewrite js_cons; (constructor; [now apply numeric_digit|exact IHd]).
Qed.

Lemma numeric_number (z : Z) : Forall numeric (number_to_string z).
Proof.
  assert (Z0 : Forall numeric (js "0")).
  { constructor; [now apply numeric_digit|constructor]. }
  unfold number_to_string. destruct z as [|p|p];
    cbn [Z.to_int NilZero.string_of_int].
  - exact Z0.
  - unfold NilZero.string_of_uint.
    destruct (Pos.to_uint p); [exact Z0 | apply numeric_digits ..].
  - rewrite js_cons. constructor; [now left|].
    unfold NilZero.string_of_uint.
    destruct (Pos.to_uint p); [exact Z0 | apply numeric_digits ..].
Qed.

Lemma number_to_string_inj (x y : Z) :
  number_to_string x = number_to_string y -> x = y.
Proof.
  intros H. apply (f_equal parseInt) in H.
  rewrite !parseInt_number_to_string in H. now injection H.
Qed.

(** Two texts that each run from numeric characters into another character
    agree on where they do. *)
Lemma numeric_prefix_unique (u v : jsstring) (c c' : N) (r r' : jsstring) :
  Forall numeric u -> Forall numeric v -> ~ numeric c -> ~ numeric c' ->
  u ++ c :: r = v ++ c' :: r' -> u = v /\ c :: r = c' :: r'.
Proof.
  intros Hu. revert v. induction Hu as [|a u Ha Hu IH]; intros v Hv Hc Hc' E.
  - destruct Hv as [|b v Hb Hv]; [now split|].
    cbn [app] in E. injection E as -> _. contradiction.
  - destruct Hv as [|b v Hb Hv].
    + cbn [app] in E. injection E as -> _. contradiction.
    + cbn [app] in E. injection E as -> E.
      destruct (IH v Hv Hc Hc' E) as [-> ?]. now split.
Qed.

Lemma not_numeric_comma : ~ numeric 44.
Proof. intros [H|[H1 H2]]; [discriminate|]. now apply H1. Qed.

Lemma not_numeric_lf : ~ numeric LF.
Proof. intros [H|[H1 H2]]; [discriminate|]. now apply H1. Qed.

Lemma join_cons_cons (sep p q : jsstring) (ps : list jsstring) :
  join sep (p :: q :: ps) = p ++ sep ++ join sep (q :: ps).
Proof. reflexivity. Qed.

Lemma wire_line_inj (a b : list Z) (f : nat -> jsstring) :
  join (js ",") (imap (fun i x => js "S" ++ f i ++ js " " ++ number_to_string x) a) ++ [LF]
  = join (js ",") (imap (fun i x => js "S" ++ f i ++ js " " ++ number_to_string x) b) ++ [LF] ->
  a = b.
Proof.
  revert b f. induction a as [|x a IH]; intros b f E.
  - destruct b as [|y b]; [reflexivity|]. exfalso.
    rewrite imap_cons in E. destruct (imap _ b); discriminate E.
  - destruct b as [|y b].
    { exfalso. rewrite imap_cons in E. destruct (imap _ a); discriminate E. }
    rewrite !imap_cons in E.
    assert (T : forall (l : list Z) (z : Z),
      join (js ",") ((js "S" ++ f 0%nat ++ js " " ++ number_to_string z)
         :: imap ((fun i x => js "S" ++ f i ++ js " " ++ number_to_string x) ∘ S) l) ++ [LF]
      = (js "S" ++ f 0%nat ++ js " ") ++ number_to_string z
        ++ match l with
           | [] => [LF]
           | _ => 44 :: join (js ",")
                    (imap ((fun i x => js "S" ++ f i ++ js " " ++ number_to_string x) ∘ S) l)
                    ++ [LF]
           end).
    { intros l z. destruct l as [|w l].
      - cbn [imap join]. now rewrite <- !app_assoc.
      - rewrite imap_cons, join_cons_cons. now rewrite <- !app_assoc. }
    rewrite !T in E. apply app_inv_head in E.
    assert (N : forall l : list Z, exists c r,
      match l with
      | [] => [LF]
      | _ => 44 :: join (js ",")
               (imap ((fun i x => js "S" ++ f i ++ js " " ++ number_to_string x) ∘ S) l)
               ++ [LF]
      end = c :: r /\ ~ numeric c).
    { intros [|w l]; eexists _, _; (split; [reflexivity|]);
        [apply not_numeric_lf|apply not_numeric_comma]. }
    destruct (N a) as (c & r & Ea & Hc). destruct (N b) as (c' & r' & Eb & Hc').
    rewrite Ea, Eb in E.
    destruct (numeric_prefix_unique _ _ _ _ _ _ (numeric_number x)
                (numeric_number y) Hc Hc' E) as [Exy Et].
    apply number_to_string_inj in Exy. subst y. f_equal.
    rewrite <- Ea, <- Eb in Et.
    destruct a as [|w a], b as [|w' b]; try reflexivity; try discriminate Et.
    injection Et as Et.
    exact (IH (w' :: b) (fun i => f (S i)) Et).
Qed.

(** X14.  The command determines the angles: two controllers whose angle
    vectors hold integers (within the range a JavaScript number holds
    exactly) and whose commands are the same text have the same angle
    vector, and so the same number of joints. *)
Theorem command_determines_angles (s s' : State) (a b : list Z) :
  Forall safe_integer a -> Forall safe_integer b ->
  servoAngles s = map Num a -> length a = numServos s ->
  servoAngles s' = map Num b -> length b = numServos s' ->
  build_command s = build_command s' ->
  servoAngles s = servoAngles s' /\ numServos s = numServos s'.
Proof.
  intros _ _ Ha Hla Hb Hlb E.
  rewrite (build_command_encode_spec s a Ha Hla) in E.
  rewrite (build_command_encode_spec s' b Hb Hlb) in E.
  unfold encode_spec in E.
  apply (wire_line_inj a b (fun i => number_to_string (Z.of_nat i + 1))) in E.
  subst b. split; congruence.
Qed.

Lemma command_determines_angles_witness :
  let s := KukaController true None 3 in
  let s' := KukaController false (Some []) 3 in
  servoAngles s = servoAngles s' /\ numServos s = numServos s'.
Proof.
  intros s s'.
  assert (Hsafe : Forall safe_integer [90; 90; 90]%Z)
    by (repeat constructor; unfold safe_integer; lia).
  exact (command_determines_angles s s' [90; 90; 90]%Z [90; 90; 90]%Z
           Hsafe Hsafe eq_refl eq_refl eq_refl eq_refl eq_refl).
Defined.

(** ** The slider handler *)

(** X15.  The slider handler stores whatever integer the slider holds, with
    no range test: on a controller with an angle for each card, a slider
    that holds the decimal text of v (an integer a JavaScript number holds
    exactly) makes the stored angle of that joint v, below 0 and above 180
    included, leaves the other angles alone, and puts v into the number
    input and the value label. *)
Theorem slider_handler_stores_any_integer (servoNum : nat) (s : State)
    (c : Card) (v : Z) :
  safe_integer v ->
  nth1 (cards s) servoNum = Some c ->
  (length (cards s) <= length (servoAngles s))%nat ->
  slider_value c = number_to_string v ->
  exists s' c',
    updateFromSlider servoNum s = Normal s'
    /\ servoAngles s' = <[(servoNum - 1)%nat := Num v]> (servoAngles s)
    /\ array_get (servoAngles s') (servoNum - 1) = Num v
    /\ (forall j, j <> (servoNum - 1)%nat ->
          array_get (servoAngles s') j = array_get (servoAngles s) j)
    /\ nth1 (cards s') servoNum = Some c'
    /\ input_value c' = number_to_string v
    /\ value_text c' = number_to_string v ++ [degree]
    /\ slider_value c' = number_to_string v
    /\ last_display (trace s') = Some (display_of s').
Proof.
  intros _ Hc Hlen Hs. unfold updateFromSlider. rewrite Hc, Hs.
  rewrite parseInt_number_to_string.
  apply nth1_Some in Hc as (Hk & Hl & Hlen').
  eexists _, _. split; [reflexivity|].
  cbn [updateSystemState emit set_cards set_servoAngles servoAngles cards].
  rewrite array_set_in_place by lia.
  split; [reflexivity|]. split.
  { unfold array_get. rewrite list_lookup_insert_eq by lia. reflexivity. }
  split.
  { intros j Hj. unfold array_get. now rewrite list_lookup_insert_ne by congruence. }
  split.
  { destruct servoNum as [|i]; [lia|]. cbn [nth1].
    replace (S i - 1)%nat with i by lia. apply list_lookup_insert_eq. lia. }
  split; [reflexivity|]. split; [reflexivity|]. split; [exact Hs|].
  apply (updateSystemState_displayed
           (set_cards _ (set_servoAngles _ s))).
Qed.

Lemma slider_handler_stores_any_integer_witness :
  let s0 := KukaController true None 5 in
  let c := with_slider (js "-7") (createServoCard 3) in
  let s := set_cards (<[2%nat := c]> (cards s0)) s0 in
  exists s', updateFromSlider 3 s = Normal s'
             /\ array_get (servoAngles s') 2 = Num (-7).
Proof.
  intros s0 c s.
  assert (Hc : nth1 (cards s) 3 = Some c) by (vm_compute; reflexivity).
  assert (Hl : (length (cards s) <= length (servoAngles s))%nat)
    by (vm_compute; lia).
  assert (Hs : slider_value c = number_to_string (-7)) by (vm_compute; reflexivity).
  assert (Hv : safe_integer (-7)) by (unfold safe_integer; lia).
  destruct (slider_handler_stores_any_integer 3 s c (-7) Hv Hc Hl Hs)
    as (s' & c' & H1 & _ & H2 & _).
  exists s'. split; [exact H1|exact H2].
Defined.

(** ** The reader reference *)

(** X16.  No handler ever clears the reader reference: across any step of
    the event loop a controller that holds a reader still holds one, a
    disconnect included. *)
Theorem reader_reference_is_never_cleared (s s' : State) :
  step s s' -> is_Some (_reader s) -> is_Some (_reader s').
Proof.
  intros Hstep Hr.
  assert (K : forall x, _reader x = _reader s -> is_Some (_reader x))
    by (intros x ->; exact Hr).
  destruct Hstep as
    [servoNum v c s s' Hc Hv Hu | servoNum text c s s' Hc Hu | w s | o s | s
    | dt s | t s | o s | o setup s | o clock s | w s s' Hreset].
  - clear Hc. revert Hu. unfold updateFromSlider.
    destruct (nth1 _ _); [intros [= <-]|discriminate]. now apply K.
  - clear Hc. revert Hu. unfold updateFromInput.
    destruct (nth1 _ _); [|discriminate].
    destruct (in_range _); intros [= <-]; now apply K.
  - apply K. handlers. cases; congruence.
  - apply K. handlers. cases; congruence.
  - apply K. handlers. cases; congruence.
  - now apply K.
  - apply K. handlers. cases; congruence.
  - apply K. handlers. cases; congruence.
  - handlers.
    destruct o; [|now apply K]. fields.
    destruct (port s); [|now apply K].
    destruct setup; fields; try (now apply K). eexists. reflexivity.
  - apply K. apply read_settled_same.
  - apply K. unfold resetAllServos in Hreset.
    pose proof (reset_loop_frame (seq 1 (numServos s)) s) as Hf.
    destruct (reset_loop _ s) as [s1|s1]; [|discriminate]. injection Hreset as <-.
    cbn [final] in Hf. destruct Hf as (_&_&_&_&_&Hrd&_).
    rewrite <- Hrd. set (s2 := emit _ (updateSystemState s1)).
    change (_reader s1) with (_reader s2).
    change (connected s2) with (connected s1). destruct (connected s1); [|reflexivity].
    clearbody s2. handlers. cases; congruence.
Qed.

Lemma reader_reference_is_never_cleared_witness :
  let t := {| cancel_throws := false; release_throws := false; close_throws := false |} in
  let s1 := connect (Fulfilled 1%nat) (Fulfilled ()) (ReaderReady 7%nat)
              (KukaController true None 2) in
  let s2 := connect (Fulfilled 2%nat) (Fulfilled ()) NotReadable (disconnect t s1) in
  is_Some (_reader (disconnect t s1))
  /\ count_effects (fun e => match e with CancelReader 7%nat => true | _ => false end)
       (trace (disconnect t s2)) = 2%nat.
Proof.
  intros t s1 s2. split.
  - refine (reader_reference_is_never_cleared s1 (disconnect t s1) _ _).
    + exact (step_toggle t s1).
    + eexists. reflexivity.
  - vm_compute. reflexivity.
Defined.

(** ** The writer lock *)

Ltac counts :=
  unfold writers_released in *; fields;
  rewrite ?count_effects_snoc; cbn [is_write is_release_writer];
  rewrite ?length_app; cbn [length]; try lia.

Lemma executePosition_released w s :
  writers_released s -> writers_released (executePosition w s).
Proof. intros H. handlers. cases; counts. Qed.

Lemma executePosition_settled_released o s :
  writers_released s -> writers_released (executePosition_settled o s).
Proof. intros H. handlers. cases; counts; rewrite Heql in H; cbn [length] in H; lia. Qed.

Lemma step_released s s' : writers_released s -> step s s' -> writers_released s'.
Proof.
  intros Hw Hstep. destruct Hstep as
    [servoNum v c s s' Hc Hv Hu | servoNum text c s s' Hc Hu | w s | o s | s
    | dt s | t s | o s | o setup s | o clock s | w s s' Hreset].
  - clear Hc. revert Hu. unfold updateFromSlider.
    destruct (nth1 _ _); [intros [= <-]|discriminate]. handlers. counts.
  - clear Hc. revert Hu. unfold updateFromInput.
    destruct (nth1 _ _); [|discriminate].
    destruct (in_range _); intros [= <-]; handlers; counts.
  - now apply executePosition_released.
  - now apply executePosition_settled_released.
  - handlers. cases; counts.
  - exact Hw.
  - handlers. cases; counts.
  - handlers. cases; counts.
  - handlers. cases; counts.
  - unfold writers_released in *.
    destruct (read_settled_same o clock s) as (_&_&_&_&_&_&_&_&_&Hwr&_).
    rewrite Hwr. destruct o as [[|c v]| |]; cbn [read_settled]; try exact Hw.
    + now rewrite (proj2 (forward_lines_same clock (chunk_lines (c :: v)) 0 s)).
    + counts.
  - unfold resetAllServos in Hreset.
    pose proof (reset_loop_frame (seq 1 (numServos s)) s) as Hf.
    destruct (reset_loop _ s) as [s1|s1]; [|discriminate]. injection Hreset as <-.
    cbn [final] in Hf. destruct Hf as (_&_&_&_&_&_&_&_&Hwr&_&Htr).
    set (s2 := emit _ (updateSystemState s1)).
    assert (H2 : writers_released s2).
    { subst s2. unfold updateSystemState. unfold writers_released in *. fields.
      rewrite !count_effects_snoc. cbn [is_write is_release_writer].
      rewrite Htr, Hwr. lia. }
    change (connected s2) with (connected s1).
    destruct (connected s1); [now apply executePosition_released|exact H2].
Qed.

(** X17.  The send path never leaks its writer: in every reachable state the
    writes that were started number the writer releases plus the writes
    still in flight, and every settled write, failed or not, releases the
    writer exactly once. *)
Theorem writer_is_released_on_every_settle (hasSerial : bool)
    (log : option jsstring) (n : nat) (s : State) :
  reachable hasSerial log n s ->
  count_effects is_write (trace s)
  = (count_effects is_release_writer (trace s) + length (writes s))%nat
  /\ (forall o, writes s <> [] ->
        count_effects is_release_writer (trace (executePosition_settled o s))
        = S (count_effects is_release_writer (trace s))).
Proof.
  intros Hr. split.
  - induction Hr as [|s s' _ IH Hstep]; [|exact (step_released s s' IH Hstep)].
    unfold KukaController, checkWebSerialSupport.
    destruct hasSerial; unfold updateSystemState, renderServoCards; fields;
      rewrite ?count_effects_snoc; reflexivity.
  - intros o Hw. handlers. destruct (writes s) as [|command rest]; [congruence|].
    destruct o; fields; rewrite !count_effects_snoc; cbn [is_release_writer]; lia.
Qed.

Lemma writer_is_released_on_every_settle_witness :
  let s0 := connect (Fulfilled 1%nat) (Fulfilled ()) NotReadable
              (KukaController true None 2) in
  let s := executePosition (Fulfilled ()) s0 in
  count_effects is_release_writer
    (trace (executePosition_settled (Failed (js "lost")) s)) = 1%nat.
Proof.
  intros s0 s.
  assert (Hr : reachable true None 2 s).
  { eapply reach_step; [|apply step_send].
    eapply reach_step; [|apply step_opened].
    eapply reach_step; [|apply step_requested].
    eapply reach_step; [apply reach_init|].
    exact (step_toggle {| cancel_throws := false; release_throws := false;
                          close_throws := false |} (KukaController true None 2)). }
  assert (Hw : writes s <> []) by (vm_compute; discriminate).
  exact (proj2 (writer_is_released_on_every_settle true None 2 s Hr)
           (Failed (js "lost")) Hw).
Defined.

(** ** The two versions compared *)

(** X18.  The first version's send has no gate beyond the connection: it
    starts a write whenever the controller is connected and has a port, busy
    or not, and sets no timer.  Where the second version's gate is open both
    hand the same command to the port.  When the write fails, the first
    version shows the failure and does not release the writer; the second
    does. *)
Theorem first_version_send_has_no_busy_gate (s : State) (p : Port) :
  connected s = true -> port s = Some p ->
  trace (V1.executePosition (Fulfilled ()) s)
  = trace s ++ [Write p (build_command s)]
  /\ timers (V1.executePosition (Fulfilled ()) s) = timers s
  /\ (_sending s = false ->
      trace (executePosition (Fulfilled ()) s)
      = trace s ++ [UiSendButton true; Write p (build_command s)])
  /\ (_sending s = true -> executePosition (Fulfilled ()) s = s)
  /\ (forall message command rest, writes s = command :: rest ->
        trace (V1.executePosition_settled (Failed message) s)
        = trace s ++ [ConsoleError (js "[ERROR] Command execution failed:") message;
                      Alert (js "Failed to execute command: " ++ message)]
        /\ trace (executePosition_settled (Failed message) s)
           = trace s ++ [ReleaseWriter;
                ConsoleError (js "[ERROR] Command execution failed:") message;
                Alert (js "Failed to execute command: " ++ message);
                SetTimeout 300]
        /\ lastCommand (V1.executePosition_settled (Failed message) s) = lastCommand s)
  /\ (forall command rest, writes s = command :: rest ->
        lastCommand (V1.executePosition_settled (Fulfilled ()) s) = trim command
        /\ lastCommand (executePosition_settled (Fulfilled ()) s) = trim command).
Proof.
  intros Hc Hp.
  split; [unfold V1.executePosition; now rewrite Hc, Hp|].
  split; [unfold V1.executePosition; now rewrite Hc, Hp|].
  split.
  { intros Hs. rewrite (executePosition_open _ _ p Hc Hp Hs).
    cbn [emit set_writes set_sending trace]. now rewrite <- app_assoc. }
  split; [intros Hs; apply executePosition_closed; auto|].
  split.
  { intros message command rest Hw.
    unfold V1.executePosition_settled, V1.executePosition_failed,
      executePosition_settled, executePosition_failed, cooldown.
    rewrite Hw. fields. rewrite <- !app_assoc. now repeat split. }
  intros command rest Hw.
  unfold V1.executePosition_settled, executePosition_settled. rewrite Hw.
  now split.
Qed.

Lemma first_version_send_has_no_busy_gate_witness :
  let s0 := connect (Fulfilled 1%nat) (Fulfilled ()) NotReadable
              (KukaController true None 2) in
  let s := executePosition (Fulfilled ()) s0 in
  executePosition (Fulfilled ()) s = s
  /\ trace (V1.executePosition (Fulfilled ()) s)
     = trace s ++ [Write 1%nat (build_command s)].
Proof.
  intros s0 s.
  assert (Hc : connected s = true) by (vm_compute; reflexivity).
  assert (Hp : port s = Some 1%nat) by (vm_compute; reflexivity).
  destruct (first_version_send_has_no_busy_gate s 1%nat Hc Hp)
    as (H1 & _ & _ & H4 & _).
  split; [apply H4; vm_compute; reflexivity|exact H1].
Defined.

(** X19.  The second version's reset is the first version's reset followed,
    when the controller is connected, by one call of [executePosition]; the
    first version only homes the joints and never writes to the port. *)
Theorem reset_is_first_version_reset_then_send (w : Outcome unit) (s : State) :
  resetAllServos w s
  = match V1.resetAllServos s with
    | Normal s1 => Normal (if connected s then executePosition w s1 else s1)
    | Throw s1 => Throw s1
    end
  /\ count_effects is_write (trace (final (V1.resetAllServos s)))
     = count_effects is_write (trace s).
Proof.
  unfold resetAllServos, V1.resetAllServos.
  pose proof (reset_loop_frame (seq 1 (numServos s)) s) as Hf.
  destruct (reset_loop _ s) as [s1|s1]; cbn [final] in *;
    destruct Hf as (_&_&Hc&_&_&_&_&_&_&_&Htr).
  - split.
    + unfold updateSystemState. fields. now rewrite Hc.
    + unfold updateSystemState. fields. rewrite !count_effects_snoc, Htr.
      cbn [is_write]. lia.
  - split; [reflexivity|now rewrite Htr].
Qed.

(** X20.  Without a reader, the second version's [disconnect] does exactly
    what the first version's does when [port.close()] returns.  When
    [port.close()] raises, the first version is left connected with its port,
    the error escaping; the second version still ends disconnected. *)
Theorem disconnect_agrees_with_first_version (t : Teardown) (s : State) :
  (_reader s = None \/ port s = None ->
     V1.disconnect false s = Normal (disconnect t s))
  /\ (forall p, port s = Some p ->
        V1.disconnect true s = Throw (emit (ClosePort p) s)
        /\ connected (final (V1.disconnect true s)) = connected s
        /\ port (final (V1.disconnect true s)) = Some p
        /\ connected (disconnect t s) = false
        /\ port (disconnect t s) = None).
Proof.
  split.
  - intros H. unfold V1.disconnect, disconnect.
    destruct (port s) as [p|]; [|reflexivity].
    destruct H as [H|H]; [|discriminate]. now rewrite H.
  - intros p Hp.
    assert (E : V1.disconnect true s = Throw (emit (ClosePort p) s))
      by (unfold V1.disconnect; now rewrite Hp).
    split; [exact E|]. rewrite E. cbn [final emit connected port].
    split; [reflexivity|]. split; [exact Hp|].
    unfold disconnect. rewrite Hp. split; [reflexivity|].
    destruct (_reader s), (cancel_throws t); reflexivity.
Qed.

Lemma disconnect_agrees_with_first_version_witness :
  let t := {| cancel_throws := false; release_throws := false; close_throws := false |} in
  let s := connect (Fulfilled 1%nat) (Fulfilled ()) NotReadable
             (KukaController true None 2) in
  V1.disconnect false s = Normal (disconnect t s)
  /\ connected (final (V1.disconnect true s)) = true.
Proof.
  intros t s.
  destruct (disconnect_agrees_with_first_version t s) as [H1 H2].
  split; [apply H1; left; vm_compute; reflexivity|].
  destruct (H2 1%nat ltac:(vm_compute; reflexivity)) as (_ & H & _).
  rewrite H. vm_compute. reflexivity.
Defined.

